(** * eth-watcher-ts: the contract service

    A shallow embedding of [src/services/contractService.ts]: the state
    resolver [getStatesFromSourceCode], the event extraction
    [getEventsFromABI], the onboarding loop [addContracts] with its two
    Etherscan helpers, and the backfill launcher [runBackfillService].

    What the service calls but does not define is taken as given: the
    Solidity parser and [structureToSignatureType] of [dataTypeParser] are
    the fields of the class [SourceTools]; [fetch], [JSON.parse] and the
    TypeORM repositories those of the class [Collaborators].  The theorems
    hold for every instance; the module [Sample] has one of each, on which
    the service is run. *)

From stdpp Require Import base list strings relations.
From Stdlib Require Import ZArith Lia.

Open Scope string_scope.
Open Scope list_scope.

(** ** Exceptions

    A JavaScript exception is a value; the service only ever builds
    [new Error(message)], everything else comes from a callee. *)

Inductive exn : Type :=
| Error (message : string)
| TypeError (message : string)
| Raised (origin : string).

(** The outcome of evaluating an expression that may throw. *)
Inductive result (A : Type) : Type :=
| Ok (value : A)
| Throw (e : exn).
Arguments Ok {A} value.
Arguments Throw {A} e.

#[global] Instance result_ret : MRet result := @Ok.
#[global] Instance result_bind : MBind result := λ A B k r,
  match r with
  | Ok a => k a
  | Throw e => Throw e
  end.
#[global] Instance result_fmap : FMap result := λ A B f r,
  match r with
  | Ok a => Ok (f a)
  | Throw e => Throw e
  end.

(** [xs.map((item, index) => f(item, index))] for a callback that may throw:
    the elements are visited in order from index [i], the first exception
    aborts the whole map. *)
Fixpoint map_indexed {A B} (f : A → nat → result B) (i : nat) (xs : list A)
  : result (list B) :=
  match xs with
  | [] => Ok []
  | x :: rest =>
      y ← f x i;
      ys ← map_indexed f (S i) rest;
      Ok (y :: ys)
  end.

(** [for (const x of xs) { s = body(s, x) }] for a body that may throw. *)
Fixpoint for_of {A S} (body : S → A → result S) (s : S) (xs : list A)
  : result S :=
  match xs with
  | [] => Ok s
  | x :: rest => s' ← body s x; for_of body s' rest
  end.

(** ** The parsed source: the nodes of the Solidity parser's tree

    Only what the service reads is kept: the [type] tag of a node is its
    constructor, and the fields are those the code projects. *)

Module Ast.

Inductive TypeName : Type :=
| ElementaryTypeName (name : string)
| UserDefinedTypeName (namePath : string)
| Mapping (keyType valueType : TypeName)
| ArrayTypeName (baseTypeName : TypeName) (length : option N)
| FunctionTypeName.

Record VariableDeclaration : Type := {
  name : string;
  typeName : TypeName;
  visibility : string;
  isDeclaredConst : bool;
  isImmutable : bool;
}.

Record StateVariableDeclaration : Type := {
  variables : list VariableDeclaration;
}.

Record StructDefinition : Type := {
  struct_name : string;
  members : list VariableDeclaration;
}.

(** A member of a contract body. *)
Inductive SubNode : Type :=
| StateVariableDeclarationNode (d : StateVariableDeclaration)
| StructDefinitionNode (s : StructDefinition)
| FunctionDefinitionNode (fname : string)
| EventDefinitionNode (ename : string)
| OtherSubNode (tag : string).

Record ContractDefinition : Type := {
  contract_name : string;
  subNodes : list SubNode;
}.

(** A top-level node of a source unit. *)
Inductive Node : Type :=
| ContractDefinitionNode (c : ContractDefinition)
| PragmaDirectiveNode (pragma : string)
| ImportDirectiveNode (path : string)
| OtherNode (tag : string).

Record SourceUnit : Type := {
  children : list Node;
}.

End Ast.
Export Ast.

(** One row of the resolver's output: the object literal
    [{ slot, type, variable }] of [getStatesFromSourceCode].  It has no
    offset and no size field. *)
Record State : Type := {
  slot : nat;
  type : string;
  variable : option string;
}.

(** ** The ABI document *)

Record ABIItem : Type := {
  abi_type : string;
  abi_name : string;
}.

Abbreviation ABI := (list ABIItem) (only parsing).

(** ** The resolver's collaborators

    [parser.parse(sourceCode, { tolerant: true })] of the Solidity parser and
    [structureToSignatureType(name, typeName, structs)] of [dataTypeParser]
    are called by the service and defined elsewhere.  Either may throw. *)

Class SourceTools : Type := {
  parse : string → result SourceUnit;
  structureToSignatureType :
    option string → option TypeName → list StructDefinition → result string;
}.

(** ** [getStatesFromSourceCode] *)

(** [ast.children.filter(item => item.type === 'ContractDefinition')] *)
Definition contractDefinitions (ast : SourceUnit) : list ContractDefinition :=
  omap (λ item, match item with
                | ContractDefinitionNode c => Some c
                | _ => None
                end) (children ast).

(** [subNodes.filter(n => n.type == 'StateVariableDeclaration')] *)
Definition states_of (c : ContractDefinition) : list StateVariableDeclaration :=
  omap (λ n, match n with
             | StateVariableDeclarationNode d => Some d
             | _ => None
             end) (subNodes c).

(** [subNodes.filter(n => n.type == 'StructDefinition')] *)
Definition structs_of (c : ContractDefinition) : list StructDefinition :=
  omap (λ n, match n with
             | StructDefinitionNode s => Some s
             | _ => None
             end) (subNodes c).

(** [item.variables[0]?.name] and [item.variables[0]?.typeName] *)
Definition first_name (item : StateVariableDeclaration) : option string :=
  name <$> variables item !! 0.
Definition first_typeName (item : StateVariableDeclaration) : option TypeName :=
  typeName <$> variables item !! 0.

Section Resolver.
Context `{SourceTools}.

(** The callback of [states.map((item, slot) => ...)]. *)
Definition state_of_declaration (structs : list StructDefinition)
    (item : StateVariableDeclaration) (slot : nat) : result State :=
  type ← structureToSignatureType (first_name item) (first_typeName item) structs;
  Ok {| slot := slot; type := type; variable := first_name item |}.

(** The states of one contract definition: the mapped array that the loop
    body concatenates to [list]. *)
Definition contract_states (c : ContractDefinition) : result (list State) :=
  map_indexed (state_of_declaration (structs_of c)) 0 (states_of c).

(** The loop over the contract definitions, with the accumulator [list]. *)
Definition collect_states (cs : list ContractDefinition) : result (list State) :=
  for_of (λ list c, mapped ← contract_states c; Ok (list ++ mapped)) [] cs.

Definition getStatesFromSourceCode (sourceCode : string) : result (list State) :=
  ast ← parse sourceCode;
  collect_states (contractDefinitions ast).

End Resolver.

(** ** [getEventsFromABI] *)

Definition getEventsFromABI (abi : option ABI) : list string :=
  match abi with
  | None => []
  | Some abi =>
      let events := filter (λ item, abi_type item = "event") abi in
      abi_name <$> events
  end.

(** ** The backfill worker

    [runBackfillService] spawns [npx ts-node ./src/backfillService.ts ...ids]
    and wraps it in a promise.  A worker is the spawned process as the
    service sees it: its arguments, the promise, and what the handlers of
    its output streams wrote to the console. *)

Inductive arg : Type :=
| ArgStr (s : string)
| ArgNum (n : Z).

(** The state of a promise; the exit code of a process is [null] when a
    signal ended it. *)
Inductive promise : Type :=
| Pending
| Resolved (code : option Z)
| Rejected (code : option Z).

Record Worker : Type := {
  command : string;
  args : list arg;
  settled : promise;
  console : list string;
}.

(** What the child process emits: data on [stdout], data on [stderr], and
    [close] with the exit code. *)
Inductive process_event : Type :=
| StdoutData (data : string)
| StderrData (data : string)
| Close (code : option Z).

(** [resolve] and [reject] settle a pending promise and do nothing to a
    settled one. *)
Definition resolve (code : option Z) (p : promise) : promise :=
  match p with Pending => Resolved code | _ => p end.
Definition reject (code : option Z) (p : promise) : promise :=
  match p with Pending => Rejected code | _ => p end.

(** [new Promise((resolve, reject) => { spawn(...); ...on(...) })] *)
Definition spawn_worker (contractIds : list Z) : Worker :=
  {| command := "npx";
     args := [ArgStr "ts-node"; ArgStr "./src/backfillService.ts"]
               ++ (ArgNum <$> contractIds);
     settled := Pending;
     console := [] |}.

(** The three handlers registered on the process. *)
Definition handle (ev : process_event) (w : Worker) : Worker :=
  match ev with
  | StdoutData data =>
      {| command := command w; args := args w; settled := settled w;
         console := console w ++ ["stdout: " +:+ data] |}
  | StderrData data =>
      {| command := command w; args := args w; settled := settled w;
         console := console w ++ ["stderr: " +:+ data] |}
  | Close code =>
      {| command := command w; args := args w;
         settled := if decide (code = Some 0%Z)
                    then resolve code (settled w)
                    else reject code (settled w);
         console := console w |}
  end.

(** The worker after the events [evs], delivered in order. *)
Definition deliver (evs : list process_event) (w : Worker) : Worker :=
  foldl (λ w ev, handle ev w) w evs.

(** ** The world of the onboarding loop

    [Env] is the state behind the collaborators (the explorer service and
    the database); [workers] are the backfill processes launched so far. *)

Record World (Env : Type) : Type := {
  env : Env;
  workers : list Worker;
}.
Arguments env {Env} w.
Arguments workers {Env} w.

(** An asynchronous computation of the service: it reads and changes the
    world, and returns or throws (an awaited promise that rejects). *)
Definition M (Env A : Type) : Type := World Env → result A * World Env.

#[global] Instance M_ret {Env} : MRet (M Env) := λ A a w, (Ok a, w).
#[global] Instance M_bind {Env} : MBind (M Env) := λ A B k m w,
  match m w with
  | (Ok a, w') => k a w'
  | (Throw e, w') => (Throw e, w')
  end.

Definition throw {Env A} (e : exn) : M Env A := λ w, (Throw e, w).

(** A computation that does not touch the world. *)
Definition pure {Env A} (r : result A) : M Env A := λ w, (r, w).

(** A call to a collaborator: it acts on [Env] alone. *)
Definition call {Env A} (op : Env → result A * Env) : M Env A := λ w,
  let '(r, e') := op (env w) in (r, {| env := e'; workers := workers w |}).

(** [try { body } catch (e) { handler(e) }] *)
Definition try_catch {Env A} (body : M Env A) (handler : exn → M Env A)
  : M Env A := λ w,
  match body w with
  | (Ok a, w') => (Ok a, w')
  | (Throw e, w') => handler e w'
  end.

(** [for (const x of xs) { s = await body(s, x) }] *)
Fixpoint for_each {Env A S} (body : S → A → M Env S) (s : S) (xs : list A)
  : M Env S :=
  match xs with
  | [] => mret s
  | x :: rest => s' ← body s x; for_each body s' rest
  end.

(** [runBackfillService(contractIds)]: an [async] function, so the call
    itself never throws; it launches the worker, and the caller gets the
    promise, here the index of the worker. *)
Definition runBackfillService {Env} (contractIds : list Z) : M Env nat := λ w,
  (Ok (length (workers w)),
   {| env := env w; workers := workers w ++ [spawn_worker contractIds] |}).

(** ** The explorer's answers and the database's rows *)

(** An element of [result] of the [getsourcecode] action. *)
Record SourceCodeRow : Type := {
  ContractName : string;
  ABI_text : option string;
  SourceCode : string;
}.

(** The body of a [getsourcecode] answer; [result] may be missing, and an
    element may be [null]. *)
Record SourceCodeAnswer : Type := {
  source_result : option (list (option SourceCodeRow));
}.

(** A value of a JSON document (a number of the documents at hand is an
    integer). *)
#[local] Unset Elimination Schemes.
Inductive Json : Type :=
| JNull
| JBool (b : bool)
| JNumber (n : Z)
| JString (s : string)
| JArray (items : list Json)
| JObject (members : list (string * Json)).
#[local] Set Elimination Schemes.

(** An element of [result] of the [txlist] action; [blockNumber] is the
    value as it stands in the answer (the explorer sends a decimal string),
    [None] when the element has no such member. *)
Record TxRow : Type := {
  blockNumber : option Json;
}.

Record TxListAnswer : Type := {
  tx_result : option (list (option TxRow));
}.

(** What [getContractDataFromEtherscan] returns. *)
Record ContractData : Type := {
  data_name : string;
  data_abi : option ABI;
  data_sourceCode : string;
}.

(** The argument of [contractRepository.add]. *)
Record NewContract : Type := {
  new_address : string;
  new_startingBlock : Json;
  new_name : string;
  new_abi : option ABI;
  new_events : list Z;
}.

Record Event : Type := { eventId : Z }.
Record Contract : Type := { contractId : Z }.

(** The collaborators of the onboarding loop, each acting on [Env]:
    [fetch(uri)] followed by [response.json()] for the two actions,
    [JSON.parse], and [add] of the two repositories.  The repositories are
    those of the open connection ([server.ts] starts the application once
    [createConnection] has resolved).  What [JSON.parse] makes of an ABI
    text is an ABI, as the service types it, or [null]. *)
Class Collaborators (Env : Type) : Type := {
  fetch_sourcecode : string → Env → result SourceCodeAnswer * Env;
  fetch_txlist : string → Env → result TxListAnswer * Env;
  JSON_parse : string → result (option ABI);
  eventRepository_add : string → Env → result Event * Env;
  contractRepository_add : NewContract → Env → result Contract * Env;
}.

(** JavaScript's truthiness of a string and of a number. *)
Definition truthy_string (s : string) : bool :=
  match s with EmptyString => false | _ => true end.
Definition truthy_number (n : Z) : bool := negb (n =? 0)%Z.

(** JavaScript's truthiness of a JSON value. *)
Definition truthy_json (v : Json) : bool :=
  match v with
  | JNull => false
  | JBool b => b
  | JNumber n => truthy_number n
  | JString s => truthy_string s
  | JArray _ | JObject _ => true
  end.

Section Onboarding.
Context {Env : Type} `{SourceTools} `{Collaborators Env}.

Definition getStartingBlockFromEtherscan (apiKey address : string)
  : M Env Json :=
  let uri := "https://api.etherscan.io/api?module=account&action=txlist&page=1&offset=3&sort=asc&address="
               +:+ address +:+ "&apikey=" +:+ apiKey in
  data ← call (fetch_txlist uri);
  match tx_result data with
  | None | Some [] => throw (Error "Oops, something wrong with etherscan API")
  | Some (firstTx :: _) =>
      match firstTx with
      | None => throw (Error "Wrong contract address")
      | Some firstTx =>
          match blockNumber firstTx with
          | None => throw (Error "Wrong contract address")
          | Some blockNumber =>
              if truthy_json blockNumber then mret blockNumber
              else throw (Error "Wrong contract address")
          end
      end
  end.

Definition getContractDataFromEtherscan (apiKey address : string)
  : M Env ContractData :=
  let uri := "https://api.etherscan.io/api?module=contract&action=getsourcecode&address="
               +:+ address +:+ "&apikey=" +:+ apiKey in
  data ← call (fetch_sourcecode uri);
  match source_result data with
  | None =>
      (* console.log(data.result.length) on a missing result *)
      throw (TypeError "Cannot read property 'length' of undefined")
  | Some [] => throw (Error "Oops")
  | Some (contract :: _) =>
      match contract with
      | None => throw (Error "Wrong contract address")
      | Some contract =>
          abi ← pure (match ABI_text contract with
                      | Some text =>
                          if truthy_string text then JSON_parse text
                          else Ok None
                      | None => Ok None
                      end);
          mret {| data_name := ContractName contract;
                  data_abi := abi;
                  data_sourceCode := SourceCode contract |}
      end
  end.

(** The inner loop: [eventIds.push((await eventRepository.add({ name })).eventId)]. *)
Definition add_events (eventNames : list string) : M Env (list Z) :=
  for_each (λ eventIds name,
              event ← call (eventRepository_add name);
              mret (eventIds ++ [eventId event]))
           [] eventNames.

(** The body of the [try] block up to and including [contractRepository.add]. *)
Definition onboard (apiKey address : string) : M Env Contract :=
  data ← getContractDataFromEtherscan apiKey address;
  startingBlock ← getStartingBlockFromEtherscan apiKey address;
  stateObjects ← pure (getStatesFromSourceCode (data_sourceCode data));
  let eventNames := getEventsFromABI (data_abi data) in
  eventIds ← add_events eventNames;
  call (contractRepository_add
          {| new_address := address;
             new_startingBlock := startingBlock;
             new_name := data_name data;
             new_abi := data_abi data;
             new_events := eventIds |}).

(** The three arrays [addContracts] fills. *)
Record Batch : Type := {
  success : list string;
  fail : list string;
  contractIds : list Z;
}.

(** One iteration of the loop over the addresses. *)
Definition onboard_step (apiKey : string) (b : Batch) (address : string)
  : M Env Batch :=
  try_catch
    (contract ← onboard apiKey address;
     mret {| success := success b ++ [address];
             fail := fail b;
             contractIds := contractIds b ++ [contractId contract] |})
    (λ e,
     mret {| success := success b;
             fail := fail b ++ [address];
             contractIds := contractIds b |}).

Definition addContracts (apiKey : string) (addresses : list string)
  : M Env (list string * list string) :=
  b ← for_each (onboard_step apiKey)
        {| success := []; fail := []; contractIds := [] |} addresses;
  _ ← (if bool_decide (contractIds b ≠ [])
       then _ ← runBackfillService (contractIds b); mret ()
       else mret ());
  mret (success b, fail b).

End Onboarding.

(** ** Notions the statements below are phrased with *)

(** The state variable declarations of a list of contract definitions, in
    the order the resolver visits them. *)
Definition all_declarations (cs : list ContractDefinition)
  : list StateVariableDeclaration :=
  concat (states_of <$> cs).

(** What the resolver reads of a source unit: per contract definition, the
    name and type of each declaration in order, and the struct definitions. *)
Definition declared_input (ast : SourceUnit)
  : list (list (option string * option TypeName) * list StructDefinition) :=
  (λ c, ((λ d, (first_name d, first_typeName d)) <$> states_of c, structs_of c))
    <$> contractDefinitions ast.

(** A declaration carries the [constant] or the [immutable] marker. *)
Definition is_constant (d : StateVariableDeclaration) : bool :=
  match variables d !! 0 with
  | Some v => isDeclaredConst v || isImmutable v
  | None => false
  end.

(** The value of a string of decimal digits. *)
Fixpoint decimal (s : string) (acc : Z) : option Z :=
  match s with
  | EmptyString => Some acc
  | String c rest =>
      let n := Z.of_nat (Ascii.nat_of_ascii c) in
      if ((48 <=? n) && (n <=? 57))%Z
      then decimal rest (10 * acc + (n - 48))%Z
      else None
  end.

(** [s] without the prefix [p], when it starts with it. *)
Fixpoint strip_prefix (p s : string) : option string :=
  match p, s with
  | EmptyString, _ => Some s
  | String a p', String b s' =>
      if Ascii.eqb a b then strip_prefix p' s' else None
  | _, _ => None
  end.

(** Modelled from the spec: the byte width of an elementary type (boolean 1,
    address 20, an integer its width in bytes, [bytesN] its [N]); the
    service computes no width. *)
Definition sizeOf (t : TypeName) : option Z :=
  match t with
  | ElementaryTypeName n =>
      if decide (n = "bool") then Some 1%Z
      else if decide (n = "address") then Some 20%Z
      else if decide (n = "uint" ∨ n = "int") then Some 32%Z
      else match strip_prefix "uint" n, strip_prefix "int" n,
                 strip_prefix "bytes" n with
           | Some bits, _, _ | None, Some bits, _ =>
               (λ b, b / 8)%Z <$> decimal bits 0
           | None, None, Some bytes => decimal bytes 0
           | None, None, None => None
           end
  | _ => None
  end.

(** Modelled from the spec: the packing law on the rows [a] and [b] of two
    sequential declarations of widths [w1] and [w2], as far as a row can
    express it (a row has a slot and no offset). *)
Definition packed_as_specified (w1 w2 : Z) (a b : State) : Prop :=
  if decide (w1 + w2 ≤ 32)%Z then slot b = slot a else slot b = S (slot a).

(** Modelled from the spec: the byte range of a row, were one read off it
    by [range], and disjointness of two rows: they differ in slot or their
    ranges within the slot do not intersect. *)
Definition disjoint_rows (range : State → Z * Z) (a b : State) : Prop :=
  slot a ≠ slot b ∨
  ((range a).1 + (range a).2 ≤ (range b).1)%Z ∨
  ((range b).1 + (range b).2 ≤ (range a).1)%Z.

(** Modelled from the spec: struct [s] has a field of struct type [t], and
    a struct contains itself directly or through its fields. *)
Definition has_field_of (structs : list StructDefinition) (s t : string) : Prop :=
  ∃ def v, def ∈ structs ∧ struct_name def = s ∧ v ∈ members def
           ∧ typeName v = UserDefinedTypeName t.

Definition contains_itself (structs : list StructDefinition) (s : string) : Prop :=
  tc (has_field_of structs) s s.

(** The outcome of onboarding each address of a batch, in order, with the
    world threaded from one address to the next. *)
Fixpoint outcomes {Env} `{SourceTools} `{Collaborators Env}
    (apiKey : string) (addresses : list string) (w : World Env)
  : list (string * result Contract) * World Env :=
  match addresses with
  | [] => ([], w)
  | address :: rest =>
      let '(r, w1) := onboard apiKey address w in
      let '(os, w2) := outcomes apiKey rest w1 in
      ((address, r) :: os, w2)
  end.

Definition accepted (os : list (string * result Contract)) : list string :=
  omap (λ o, match o.2 with Ok _ => Some o.1 | Throw _ => None end) os.
Definition rejected (os : list (string * result Contract)) : list string :=
  omap (λ o, match o.2 with Ok _ => None | Throw _ => Some o.1 end) os.
Definition accepted_ids (os : list (string * result Contract)) : list Z :=
  omap (λ o, match o.2 with Ok c => Some (contractId c) | Throw _ => None end) os.

(** The names of the entries of kind ["event"], entry by entry. *)
Fixpoint event_names (abi : list ABIItem) : list string :=
  match abi with
  | [] => []
  | item :: rest =>
      if decide (abi_type item = "event")
      then abi_name item :: event_names rest
      else event_names rest
  end.

(** The chunks a process writes before it closes. *)
Inductive chunk : Type :=
| OnStdout (data : string)
| OnStderr (data : string).

Definition chunk_event (c : chunk) : process_event :=
  match c with
  | OnStdout data => StdoutData data
  | OnStderr data => StderrData data
  end.

(** A relation between the world before and after that a computation, or
    a collaborator, maintains whatever it returns or throws. *)
Definition respects {Env A} (R : World Env → World Env → Prop) (m : M Env A)
  : Prop :=
  ∀ w r w', m w = (r, w') → R w w'.

Definition op_respects {Env A} (R : World Env → World Env → Prop)
    (op : Env → result A * Env) : Prop :=
  ∀ ws e r e', op e = (r, e') →
    R {| env := e; workers := ws |} {| env := e'; workers := ws |}.

(** The collaborators of [addContracts] that touch the database or the
    network all maintain [R]. *)
Definition collaborators_respect {Env} `{Collaborators Env}
    (R : World Env → World Env → Prop) : Prop :=
  (∀ uri, op_respects R (fetch_sourcecode uri)) ∧
  (∀ uri, op_respects R (fetch_txlist uri)) ∧
  (∀ n, op_respects R (eventRepository_add n)) ∧
  (∀ c, op_respects R (contractRepository_add c)).

(** The workers are those of before. *)
Definition same_workers {Env} (w w' : World Env) : Prop :=
  workers w' = workers w.

(** What is [registered] in the database stays so. *)
Definition keeps {Env} (registered : Env → string → Prop) (w w' : World Env)
  : Prop :=
  ∀ n, registered (env w) n → registered (env w') n.

(** ** Sample collaborators

    Concrete collaborators on which the service is run in the examples: a
    parser that knows a few source texts, a signature builder that renders
    elementary types by name and refuses a struct with a field of its own
    type, an explorer with three addresses, and a database of two tables. *)

Module Sample.

Definition var (n : string) (t : TypeName) : VariableDeclaration :=
  {| name := n; typeName := t; visibility := "default";
     isDeclaredConst := false; isImmutable := false |}.

Definition constant (n : string) (t : TypeName) : VariableDeclaration :=
  {| name := n; typeName := t; visibility := "default";
     isDeclaredConst := true; isImmutable := false |}.

Definition state (v : VariableDeclaration) : SubNode :=
  StateVariableDeclarationNode {| variables := [v] |}.

Definition unit_of (nodes : list Node) : SourceUnit :=
  {| children := PragmaDirectiveNode "solidity ^0.7.0" :: nodes |}.

Definition uint8 : TypeName := ElementaryTypeName "uint8".
Definition uint256 : TypeName := ElementaryTypeName "uint256".

Definition S_def : StructDefinition :=
  {| struct_name := "S"; members := [var "s" (UserDefinedTypeName "S")] |}.

(** The contract definitions of the sample sources. *)
Definition pair_contract : ContractDefinition :=
  {| contract_name := "C";
     subNodes := [state (var "a" (ElementaryTypeName "bool"));
                  state (var "b" uint256)] |}.

Definition constant_contract : ContractDefinition :=
  {| contract_name := "C";
     subNodes := [state (constant "A" uint256);
                  state (var "b" uint256)] |}.

Definition contract_A : ContractDefinition :=
  {| contract_name := "A";
     subNodes := [state (var "x" uint256)] |}.

Definition contract_B : ContractDefinition :=
  {| contract_name := "B";
     subNodes := [state (var "x" uint256)] |}.

Definition cyclic_contract : ContractDefinition :=
  {| contract_name := "C";
     subNodes := [state (var "a" uint8);
                  StructDefinitionNode S_def;
                  state (var "root" (UserDefinedTypeName "S"))] |}.

Definition two_uint8 : string := "contract C { uint8 a; uint8 b; }".
Definition bool_then_uint256 : string := "contract C { bool a; uint256 b; }".
Definition constant_first : string :=
  "contract C { uint256 constant A = 1; uint256 b; }".
Definition without_constant : string := "contract C { uint256 b; }".
Definition unmarked_with_function : string :=
  "contract C { uint256 A; function f() public {} uint256 b; }".
Definition two_contracts : string :=
  "contract A { uint256 x; } contract B { uint256 x; }".
Definition cyclic_unused : string := "contract C { struct S { S s; } }".
Definition cyclic_used : string :=
  "contract C { uint8 a; struct S { S s; } S root; }".

Definition two_uint8_contract : ContractDefinition :=
  {| contract_name := "C";
     subNodes := [state (var "a" uint8); state (var "b" uint8)] |}.

Definition single_contract : ContractDefinition :=
  {| contract_name := "C"; subNodes := [state (var "b" uint256)] |}.

Definition unmarked_contract : ContractDefinition :=
  {| contract_name := "C";
     subNodes := [state (var "A" uint256);
                  FunctionDefinitionNode "f";
                  state (var "b" uint256)] |}.

Definition struct_only_contract : ContractDefinition :=
  {| contract_name := "C"; subNodes := [StructDefinitionNode S_def] |}.

Definition sources : list (string * SourceUnit) :=
  [ (two_uint8, unit_of [ContractDefinitionNode two_uint8_contract]);
    (bool_then_uint256, unit_of [ContractDefinitionNode pair_contract]);
    (constant_first, unit_of [ContractDefinitionNode constant_contract]);
    (without_constant, unit_of [ContractDefinitionNode single_contract]);
    (unmarked_with_function, unit_of [ContractDefinitionNode unmarked_contract]);
    (two_contracts,
     unit_of [ContractDefinitionNode contract_A;
              ContractDefinitionNode contract_B]);
    (cyclic_unused, unit_of [ContractDefinitionNode struct_only_contract]);
    (cyclic_used, unit_of [ContractDefinitionNode cyclic_contract]) ].

Definition sample_parse (sourceCode : string) : result SourceUnit :=
  match list_find (λ entry, entry.1 = sourceCode) sources with
  | Some (_, (_, ast)) => Ok ast
  | None => Ok (unit_of [])
  end.

Definition refers_to (p : string) (v : VariableDeclaration) : bool :=
  match typeName v with
  | UserDefinedTypeName q => bool_decide (q = p)
  | _ => false
  end.

Definition sample_signature (n : option string) (t : option TypeName)
    (structs : list StructDefinition) : result string :=
  match t with
  | None => Throw (TypeError "Cannot read property 'type' of undefined")
  | Some (ElementaryTypeName e) => Ok e
  | Some (UserDefinedTypeName p) =>
      match list_find (λ def, struct_name def = p) structs with
      | None => Throw (Error "UnknownType")
      | Some (_, def) =>
          if existsb (refers_to p) (members def)
          then Throw (Error "CyclicStruct")
          else Ok ("struct " +:+ p)
      end
  | Some (Mapping _ _) => Ok "mapping"
  | Some (ArrayTypeName _ _) => Ok "array"
  | Some FunctionTypeName => Ok "function"
  end.

Definition tools : SourceTools :=
  {| parse := sample_parse; structureToSignatureType := sample_signature |}.

(** The database: the names of the event table and the rows of the
    contract table. *)
Record Db : Type := {
  event_rows : list string;
  contract_rows : list NewContract;
}.

Definition mentions (needle uri : string) : bool :=
  match String.index 0 needle uri with Some _ => true | None => false end.

(** The explorer: [0xB2] is unknown to it, [0xC3] is a contract published
    without a name, every other address is a token. *)
Definition sample_sourcecode (uri : string) (db : Db)
  : result SourceCodeAnswer * Db :=
  if mentions "address=0xB2&" uri
  then (Ok {| source_result := Some [] |}, db)
  else if mentions "address=0xC3&" uri
  then (Ok {| source_result :=
                Some [Some {| ContractName := ""; ABI_text := Some "vault-abi";
                              SourceCode := without_constant |}] |}, db)
  else (Ok {| source_result :=
                Some [Some {| ContractName := "Token"; ABI_text := Some "token-abi";
                              SourceCode := two_uint8 |}] |}, db).

Definition sample_txlist (uri : string) (db : Db)
  : result TxListAnswer * Db :=
  (Ok {| tx_result := Some [Some {| blockNumber := Some (JString "4634748") |}] |},
   db).

Definition sample_JSON_parse (text : string) : result (option ABI) :=
  if decide (text = "token-abi")
  then Ok (Some [ {| abi_type := "event"; abi_name := "Transfer" |};
                  {| abi_type := "function"; abi_name := "balanceOf" |};
                  {| abi_type := "event"; abi_name := "Transfer" |} ])
  else if decide (text = "vault-abi")
  then Ok (Some [ {| abi_type := "event"; abi_name := "Deposit" |} ])
  else if decide (text = "null")
  then Ok None
  else Throw (Raised "SyntaxError: Unexpected token in JSON").

(** The event table finds a name or creates it. *)
Definition sample_event_add (n : string) (db : Db) : result Event * Db :=
  match list_find (λ row, row = n) (event_rows db) with
  | Some (i, _) => (Ok {| eventId := Z.of_nat (S i) |}, db)
  | None =>
      (Ok {| eventId := Z.of_nat (S (length (event_rows db))) |},
       {| event_rows := event_rows db ++ [n];
          contract_rows := contract_rows db |})
  end.

(** The contract table refuses a contract without a name. *)
Definition sample_contract_add (c : NewContract) (db : Db)
  : result Contract * Db :=
  if truthy_string (new_name c)
  then (Ok {| contractId := Z.of_nat (S (length (contract_rows db))) |},
        {| event_rows := event_rows db;
           contract_rows := contract_rows db ++ [c] |})
  else (Throw (Raised "null value in column name violates not-null constraint"),
        db).

Definition collaborators : Collaborators Db :=
  {| fetch_sourcecode := sample_sourcecode;
     fetch_txlist := sample_txlist;
     JSON_parse := sample_JSON_parse;
     eventRepository_add := sample_event_add;
     contractRepository_add := sample_contract_add |}.

Definition empty_world : World Db :=
  {| env := {| event_rows := []; contract_rows := [] |}; workers := [] |}.

(** An event is registered when the event table has its name. *)
Definition registered (db : Db) (n : string) : Prop := n ∈ event_rows db.

End Sample.

(** ** Further notions *)

(** The slots the resolver hands out within one contract definition. *)
Definition contract_slots (c : ContractDefinition) : list nat :=
  seq 0 (length (states_of c)).

(** The exit code of the first [close] among the events, if there is one. *)
Fixpoint first_close (evs : list process_event) : option (option Z) :=
  match evs with
  | [] => None
  | Close code :: _ => Some code
  | _ :: rest => first_close rest
  end.

(** A computation that neither reads nor changes the workers: what it
    returns and what it does to [Env] are the same whatever workers there
    are, and these stay as they are. *)
Definition worker_blind {Env A} (m : M Env A) : Prop :=
  ∀ e ws, ∃ r e',
    m {| env := e; workers := ws |} = (r, {| env := e'; workers := ws |}) ∧
    ∀ ws', m {| env := e; workers := ws' |}
           = (r, {| env := e'; workers := ws' |}).

(** More sample sources: the two contracts of [Sample.two_contracts], each
    in a document of its own. *)
Module Split.

Definition only_A : string := "contract A { uint256 x; }".
Definition only_B : string := "contract B { uint256 x; }".

Definition split_parse (sourceCode : string) : result SourceUnit :=
  if decide (sourceCode = only_A)
  then Ok (Sample.unit_of [ContractDefinitionNode Sample.contract_A])
  else if decide (sourceCode = only_B)
  then Ok (Sample.unit_of [ImportDirectiveNode "./A.sol";
                           ContractDefinitionNode Sample.contract_B])
  else Sample.sample_parse sourceCode.

Definition tools : SourceTools :=
  {| parse := split_parse;
     structureToSignatureType := Sample.sample_signature |}.

End Split.

(** What the sample explorer knows of the token at [0xA1]. *)
Module Expected.

Definition token_data : ContractData :=
  {| data_name := "Token";
     data_abi := Some [ {| abi_type := "event"; abi_name := "Transfer" |};
                        {| abi_type := "function"; abi_name := "balanceOf" |};
                        {| abi_type := "event"; abi_name := "Transfer" |} ];
     data_sourceCode := Sample.two_uint8 |}.

End Expected.

(** Stricter sample collaborators: the explorer also knows [0xD4], whose
    source declares a state variable of a struct that contains itself, and
    the event table refuses the empty name. *)
Module Strict.

Definition strict_sourcecode (uri : string) (db : Sample.Db)
  : result SourceCodeAnswer * Sample.Db :=
  if Sample.mentions "address=0xD4&" uri
  then (Ok {| source_result :=
                Some [Some {| ContractName := "Tree"; ABI_text := Some "vault-abi";
                              SourceCode := Sample.cyclic_used |}] |}, db)
  else Sample.sample_sourcecode uri db.

Definition strict_event_add (n : string) (db : Sample.Db)
  : result Event * Sample.Db :=
  if truthy_string n then Sample.sample_event_add n db
  else (Throw (Raised "null value in column name violates not-null constraint"),
        db).

Definition collaborators : Collaborators Sample.Db :=
  {| fetch_sourcecode := strict_sourcecode;
     fetch_txlist := Sample.sample_txlist;
     JSON_parse := Sample.sample_JSON_parse;
     eventRepository_add := strict_event_add;
     contractRepository_add := Sample.sample_contract_add |}.

(** The world in which [Transfer] is the one registered event. *)
Definition after_transfer : World Sample.Db :=
  {| env := {| Sample.event_rows := ["Transfer"]; Sample.contract_rows := [] |};
     workers := [] |}.

End Strict.

(** The line an event of the process leaves on the console, if any. *)
Definition console_line (ev : process_event) : option string :=
  match ev with
  | StdoutData data => Some ("stdout: " +:+ data)
  | StderrData data => Some ("stderr: " +:+ data)
  | Close _ => None
  end.

(** ** [dev/gen.ts]: tables from GraphQL type definitions

    The script turns each type definition of a parsed schema into the
    options of a table: a column per field, made by [parseFieldDefinition],
    and a foreign key per column that refers to another type.  [kebabCase]
    of lodash is taken as given. *)

Class Lodash : Type := {
  kebabCase : string → string;
}.

Module Gen.

(** The nodes [parseFieldDefinition] is called on, by their [kind]. *)
Inductive GqlNode : Type :=
| FieldDefinition (name : string) (type : GqlNode)
| NonNullType (type : GqlNode)
| NamedType (name : string)
| ListType (type : GqlNode)
| OtherKind (kind : string).

(** What a property read on [TYPES] may give: one of its strings, or a
    member the object literal inherits from [Object.prototype] (a function
    or an object, which is truthy). *)
Inductive js_value : Type :=
| Str (s : string)
| Inherited (key : string).

Definition truthy (v : js_value) : bool :=
  match v with
  | Str s => truthy_string s
  | Inherited _ => true
  end.

Definition TYPES : list (string * string) :=
  [ ("String", "text"); ("ID", "integer"); ("Int", "integer");
    ("Float", "numeric"); ("Boolean", "boolean"); ("Bytes", "bytea");
    ("JSON", "jsonb") ].

Definition Object_prototype : list string :=
  [ "constructor"; "__defineGetter__"; "__defineSetter__"; "hasOwnProperty";
    "__lookupGetter__"; "__lookupSetter__"; "isPrototypeOf";
    "propertyIsEnumerable"; "toString"; "valueOf"; "__proto__";
    "toLocaleString" ].

(** [TYPES[key]]; [None] is [undefined]. *)
Definition TYPES_get (key : string) : option js_value :=
  match list_find (λ entry, entry.1 = key) TYPES with
  | Some (_, (_, sql)) => Some (Str sql)
  | None =>
      if bool_decide (key ∈ Object_prototype) then Some (Inherited key)
      else None
  end.

(** The fields of [TableColumnOptions] the script sets; [None] is a field
    that is absent, or [null] for [name]. *)
Record TableColumnOptions : Type := {
  name : option string;
  type : option js_value;
  isPrimary : option bool;
  isGenerated : option bool;
  generationStrategy : option string;
  isNullable : option bool;
  isArray : option bool;
  comment : option string;
}.

(** [Object.assign(column, { name })] and its two siblings. *)
Definition assign_name (n : string) (c : TableColumnOptions) : TableColumnOptions :=
  {| name := Some n; type := type c; isPrimary := isPrimary c;
     isGenerated := isGenerated c; generationStrategy := generationStrategy c;
     isNullable := isNullable c; isArray := isArray c; comment := comment c |}.

Definition assign_isNullable (b : bool) (c : TableColumnOptions) : TableColumnOptions :=
  {| name := name c; type := type c; isPrimary := isPrimary c;
     isGenerated := isGenerated c; generationStrategy := generationStrategy c;
     isNullable := Some b; isArray := isArray c; comment := comment c |}.

Definition assign_isArray (b : bool) (c : TableColumnOptions) : TableColumnOptions :=
  {| name := name c; type := type c; isPrimary := isPrimary c;
     isGenerated := isGenerated c; generationStrategy := generationStrategy c;
     isNullable := isNullable c; isArray := Some b; comment := comment c |}.

Definition plain_column (t : option js_value) (c : option string) : TableColumnOptions :=
  {| name := None; type := t; isPrimary := None; isGenerated := None;
     generationStrategy := None; isNullable := None; isArray := None;
     comment := c |}.

Fixpoint parseFieldDefinition (node : GqlNode) : result TableColumnOptions :=
  match node with
  | FieldDefinition n t =>
      column ← parseFieldDefinition t; Ok (assign_name n column)
  | NonNullType t =>
      column ← parseFieldDefinition t; Ok (assign_isNullable false column)
  | NamedType n =>
      match TYPES_get n with
      | Some type =>
          if truthy type then Ok (plain_column (Some type) None)
          else Ok (plain_column (TYPES_get "Int") (Some n))
      | None => Ok (plain_column (TYPES_get "Int") (Some n))
      end
  | ListType t =>
      column ← parseFieldDefinition t; Ok (assign_isArray true column)
  | OtherKind _ => Throw (Error "Unsupported type")
  end.

(** A type definition as [visit] walks it: its name and its field
    definitions, each a name and a type, in the order of the document. *)
Record TypeDefinition : Type := {
  def_name : string;
  fields : list (string * GqlNode);
}.

Record ForeignKey : Type := {
  fk_name : string;
  referencedTableName : string;
  referencedColumnNames : list string;
  columnNames : list (option string);
}.

Record TableOptions : Type := {
  table_name : string;
  columns : list TableColumnOptions;
  foreignKeys : option (list ForeignKey);
}.

Definition id_column : TableColumnOptions :=
  {| name := Some "id"; type := Some (Str "integer"); isPrimary := Some true;
     isGenerated := Some true; generationStrategy := Some "increment";
     isNullable := None; isArray := None; comment := None |}.

(** A value of [column.name] inside a template literal. *)
Definition template (n : option string) : string :=
  match n with Some s => s | None => "null" end.

(** [column.comment] is truthy: present and not empty. *)
Definition has_comment (c : TableColumnOptions) : Prop :=
  ∃ s, comment c = Some s ∧ s ≠ "".

#[global] Instance has_comment_dec (c : TableColumnOptions) : Decision (has_comment c).
Proof.
  unfold has_comment. destruct (comment c) as [s|].
  - destruct (decide (s = "")) as [->|Hne].
    + right. intros (s' & [= <-] & Hne). contradiction.
    + left. eauto.
  - right. intros (s' & Hno & _). discriminate.
Defined.

Section Tables.
Context `{Lodash}.

Definition foreign_key (column : TableColumnOptions) : ForeignKey :=
  let target := kebabCase (default "" (comment column)) in
  {| fk_name := "fk-" +:+ template (name column) +:+ "-" +:+ target +:+ "-id";
     referencedTableName := target;
     referencedColumnNames := ["id"];
     columnNames := [name column] |}.

(** The body of [res.definitions.forEach]: the table of one definition. *)
Definition table_of (ast : TypeDefinition) : result TableOptions :=
  let tableName := kebabCase (def_name ast) in
  columns ← for_of (λ columns field,
                      columnOptions ← parseFieldDefinition
                                        (FieldDefinition field.1 field.2);
                      Ok (columns ++ [columnOptions]))
              [id_column] (fields ast);
  let foreignKeys := foreign_key <$> filter has_comment columns in
  Ok {| table_name := tableName; columns := columns;
        foreignKeys := Some foreignKeys |}.

End Tables.

(** The innermost node of a field or type. *)
Fixpoint innermost (node : GqlNode) : GqlNode :=
  match node with
  | FieldDefinition _ t | NonNullType t | ListType t => innermost t
  | NamedType _ | OtherKind _ => node
  end.

(** A type: a named type under list and non-null wrappers. *)
Fixpoint is_type (node : GqlNode) : bool :=
  match node with
  | NonNullType t | ListType t => is_type t
  | NamedType _ => true
  | FieldDefinition _ _ | OtherKind _ => false
  end.

(** The name of the named type of a type. *)
Fixpoint base_name (node : GqlNode) : string :=
  match node with
  | FieldDefinition _ t | NonNullType t | ListType t => base_name t
  | NamedType n => n
  | OtherKind _ => ""
  end.

(** Some wrapper of the type is a non-null, a list. *)
Fixpoint wraps_nonnull (node : GqlNode) : bool :=
  match node with
  | NonNullType _ => true
  | FieldDefinition _ t | ListType t => wraps_nonnull t
  | NamedType _ | OtherKind _ => false
  end.

Fixpoint wraps_list (node : GqlNode) : bool :=
  match node with
  | ListType _ => true
  | FieldDefinition _ t | NonNullType t => wraps_list t
  | NamedType _ | OtherKind _ => false
  end.

(** The type refers to another table: its named type is no key of [TYPES],
    own or inherited, and its name is not empty. *)
Definition refers_elsewhere (t : GqlNode) : bool :=
  match TYPES_get (base_name t) with
  | Some _ => false
  | None => truthy_string (base_name t)
  end.

(** The foreign key of a field that refers to another table. *)
Definition expected_key `{Lodash} (field : string * GqlNode) : ForeignKey :=
  {| fk_name := "fk-" +:+ field.1 +:+ "-" +:+ kebabCase (base_name field.2)
                  +:+ "-id";
     referencedTableName := kebabCase (base_name field.2);
     referencedColumnNames := ["id"];
     columnNames := [Some field.1] |}.

(** The sample fields: [title: String!], [author: Person!],
    [tags: [String!]], [toString: toString]. *)
Definition book : TypeDefinition :=
  {| def_name := "Book";
     fields := [ ("title", NonNullType (NamedType "String"));
                 ("author", NonNullType (NamedType "Person"));
                 ("tags", ListType (NonNullType (NamedType "String")));
                 ("toString", NamedType "toString") ] |}.

(** A stand-in for lodash's [kebabCase] on the names of the samples. *)
Definition sample_lodash : Lodash :=
  {| kebabCase := λ s,
       if decide (s = "Book") then "book"
       else if decide (s = "Person") then "person"
       else s |}.

End Gen.

(** ** [server.ts]: what the start-up script starts

    The script reads the connection options, opens the connection and,
    without waiting for it, starts the Postgraphile server if it is
    enabled; once the connection is open it creates the application, the
    store and the GraphQL service, subscribes the watchers and starts the
    HTTP server, as the environment says.  A run is the list of the calls
    it makes, in the order it makes them; the callbacks the two servers
    run once they listen are not calls of the script. *)

Module Server.

(** The variables of [env] the script reads. *)
Record Env : Type := {
  ENABLE_EVENT_WATCHER : bool;
  ENABLE_HEADER_WATCHER : bool;
  HTTP_ENABLE : bool;
  HTTP_PORT : Z;
  HTTP_ADDR : string;
  GRAPHQL_SERVER_ENABLE : bool;
  GRAPHQL_SERVER_PORT : Z;
  GRAPHQL_SERVER_ADDR : string;
  DATABASE_USER : string;
  DATABASE_PASSWORD : string;
  DATABASE_HOSTNAME : string;
  DATABASE_PORT : string;
  DATABASE_NAME : string;
}.

Inductive action : Type :=
| NewApp
| StoreInit
| NewGraphqlService
| SubscriptionReceiptCids
| SubscriptionHeaderCids
| HttpListen (port : Z) (addr : string)
| Postgraphile (uri : string)
| PostgraphileListen (port : Z) (addr : string)
| ConsoleInfo (message : string)
| ConsoleLog (message : string)
| ConsoleLogError (e : exn).

(** The statements of a block one after the other, up to the first that
    throws: the calls made, and the exception if there was one.  [fails]
    tells which calls throw. *)
Fixpoint perform (fails : action → option exn) (block : list action)
  : list action * option exn :=
  match block with
  | [] => ([], None)
  | a :: rest =>
      match fails a with
      | Some e => ([a], Some e)
      | None => let '(done, e) := perform fails rest in (a :: done, e)
      end
  end.

(** The callback of [createConnection(...).then]. *)
Definition connected (env : Env) : list action :=
  [NewApp; StoreInit; NewGraphqlService]
  ++ (if ENABLE_EVENT_WATCHER env
      then [SubscriptionReceiptCids]
      else [ConsoleInfo "Event watcher is not enabled"])
  ++ (if ENABLE_HEADER_WATCHER env && ENABLE_EVENT_WATCHER env
      then [ConsoleLog "Header watcher will work via Event watcher"]
      else if ENABLE_HEADER_WATCHER env && negb (ENABLE_EVENT_WATCHER env)
      then [SubscriptionHeaderCids]
      else [ConsoleInfo "Header watcher is not enabled"])
  ++ (if HTTP_ENABLE env
      then [HttpListen (HTTP_PORT env) (HTTP_ADDR env)]
      else [ConsoleInfo "Http server will be not run"]).

(** The block after the call of [createConnection]. *)
Definition graphql_server (env : Env) : list action :=
  if GRAPHQL_SERVER_ENABLE env
  then [Postgraphile ("postgres://" +:+ DATABASE_USER env +:+ ":"
                        +:+ DATABASE_PASSWORD env +:+ "@"
                        +:+ DATABASE_HOSTNAME env +:+ ":"
                        +:+ DATABASE_PORT env +:+ "/" +:+ DATABASE_NAME env);
        PostgraphileListen (GRAPHQL_SERVER_PORT env) (GRAPHQL_SERVER_ADDR env)]
  else [ConsoleInfo "Postgraphile server will be not run"].

(** The script: [options] is how [getConnectionOptions] ends and
    [connection] how [createConnection] ends. *)
Definition main (env : Env) (fails : action → option exn)
    (options connection : result unit) : list action :=
  match options with
  | Throw _ => []
  | Ok _ =>
      (perform fails (graphql_server env)).1
      ++ match connection with
         | Ok _ =>
             let '(done, thrown) := perform fails (connected env) in
             done ++ match thrown with
                     | Some e => [ConsoleLogError e]
                     | None => []
                     end
         | Throw e => [ConsoleLogError e]
         end
  end.

(** A sample environment: both watchers and both servers enabled. *)
Definition everything_on : Env :=
  {| ENABLE_EVENT_WATCHER := true; ENABLE_HEADER_WATCHER := true;
     HTTP_ENABLE := true; HTTP_PORT := 3000; HTTP_ADDR := "0.0.0.0";
     GRAPHQL_SERVER_ENABLE := true; GRAPHQL_SERVER_PORT := 5000;
     GRAPHQL_SERVER_ADDR := "0.0.0.0";
     DATABASE_USER := "user"; DATABASE_PASSWORD := "secret";
     DATABASE_HOSTNAME := "localhost"; DATABASE_PORT := "5432";
     DATABASE_NAME := "watcher" |}.

Definition nothing_fails (a : action) : option exn := None.

End Server.

(** The ids [ids] are those the event repository returned for the names
    [eventNames], one call after the other from the world [w], each call
    in the world the one before left, the last leaving [w']. *)
Fixpoint returned_in_turn {Env} `{Collaborators Env}
    (eventNames : list string) (w : World Env) (ids : list Z) (w' : World Env)
  : Prop :=
  match eventNames, ids with
  | [], [] => w' = w
  | name :: eventNames', id :: ids' =>
      ∃ event w1,
        call (eventRepository_add name) w = (Ok event, w1) ∧
        eventId event = id ∧
        returned_in_turn eventNames' w1 ids' w'
  | _, _ => False
  end.

(** An explorer that answers as the wire has it: the block number of the
    first transaction is the string ["0"], and the ABI text is ["null"]. *)
Module Wire.

Definition wire_sourcecode (uri : string) (db : Sample.Db)
  : result SourceCodeAnswer * Sample.Db :=
  (Ok {| source_result :=
           Some [Some {| ContractName := "Genesis"; ABI_text := Some "null";
                         SourceCode := Sample.without_constant |}] |}, db).

Definition wire_txlist (uri : string) (db : Sample.Db)
  : result TxListAnswer * Sample.Db :=
  (Ok {| tx_result := Some [Some {| blockNumber := Some (JString "0") |};
                            Some {| blockNumber := Some (JString "46147") |}] |},
   db).

Definition collaborators : Collaborators Sample.Db :=
  {| fetch_sourcecode := wire_sourcecode;
     fetch_txlist := wire_txlist;
     JSON_parse := Sample.sample_JSON_parse;
     eventRepository_add := Sample.sample_event_add;
     contractRepository_add := Sample.sample_contract_add |}.

End Wire.

(** A signature builder that looks through the struct definitions it is
    given on every call, and a source whose struct contains itself while
    its one state variable is an integer. *)
Module Scan.

Definition scanning_signature (n : option string) (t : option TypeName)
    (structs : list StructDefinition) : result string :=
  if existsb (λ def, existsb (Sample.refers_to (struct_name def)) (members def))
       structs
  then Throw (Error "CyclicStruct")
  else Sample.sample_signature n t structs.

Definition cyclic_beside : string := "contract C { uint8 a; struct S { S s; } }".

Definition scan_parse (sourceCode : string) : result SourceUnit :=
  if decide (sourceCode = cyclic_beside)
  then Ok (Sample.unit_of
             [ContractDefinitionNode
                {| contract_name := "C";
                   subNodes := [Sample.state (Sample.var "a" Sample.uint8);
                                StructDefinitionNode Sample.S_def] |}])
  else Sample.sample_parse sourceCode.

Definition tools : SourceTools :=
  {| parse := scan_parse; structureToSignatureType := scanning_signature |}.

End Scan.

(** * Properties *)

(** ** Exceptions and the two loops *)

Lemma bind_Ok {A B} (r : result A) (k : A → result B) (b : B) :
  (a ← r; k a) = Ok b ↔ ∃ a, r = Ok a ∧ k a = Ok b.
Proof.
  destruct r as [a|e]; simpl; split.
  - intros Hk. exists a. auto.
  - intros (a' & [= <-] & Hk). exact Hk.
  - discriminate.
  - intros (a' & Ha & _). discriminate.
Qed.

Lemma bind_Throw {A B} (r : result A) (k : A → result B) (e : exn) :
  (a ← r; k a) = Throw e ↔ r = Throw e ∨ ∃ a, r = Ok a ∧ k a = Throw e.
Proof.
  destruct r as [a|e']; simpl; split.
  - intros Hk. right. exists a. auto.
  - intros [Hr | (a' & [= <-] & Hk)]; [discriminate | exact Hk].
  - intros [= <-]. left. reflexivity.
  - intros [[= <-] | (a' & Ha & _)]; [reflexivity | discriminate].
Qed.

Section MapIndexed.
Context {A B : Type} (f : A → nat → result B).

Lemma map_indexed_Ok (xs : list A) : ∀ (i : nat) (ys : list B),
  map_indexed f i xs = Ok ys →
  length ys = length xs ∧
  ∀ k x, xs !! k = Some x → ∃ y, ys !! k = Some y ∧ f x (i + k) = Ok y.
Proof.
  induction xs as [|x0 rest IH]; intros i ys Hmap; simpl in Hmap.
  - injection Hmap as <-. split; [reflexivity|]. intros k x Hk. discriminate.
  - apply bind_Ok in Hmap as (y0 & Hy0 & Hmap).
    apply bind_Ok in Hmap as (ys' & Hrest & [= <-]).
    destruct (IH _ _ Hrest) as [Hlen Hrows]. split.
    + simpl. congruence.
    + intros [|k] x Hk; simpl in Hk.
      * injection Hk as <-. exists y0. rewrite Nat.add_0_r. auto.
      * destruct (Hrows k x Hk) as (y & Hy & Hf). exists y.
        split; [exact Hy|]. rewrite <- Hf. f_equal. lia.
Qed.

Lemma map_indexed_Throw (xs : list A) : ∀ (i : nat) (e : exn),
  map_indexed f i xs = Throw e →
  ∃ k x, xs !! k = Some x ∧ f x (i + k) = Throw e.
Proof.
  induction xs as [|x0 rest IH]; intros i e Hmap; simpl in Hmap.
  - discriminate.
  - apply bind_Throw in Hmap as [Hx0 | (y0 & Hy0 & Hmap)].
    + exists 0, x0. rewrite Nat.add_0_r. auto.
    + apply bind_Throw in Hmap as [Hrest | (ys & _ & Hno)]; [|discriminate].
      destruct (IH _ _ Hrest) as (k & x & Hk & Hf).
      exists (S k), x. split; [exact Hk|]. rewrite <- Hf. f_equal. lia.
Qed.

Lemma map_indexed_fails (xs : list A) : ∀ (i k : nat) (x : A) (e : exn),
  xs !! k = Some x → f x (i + k) = Throw e →
  ∃ e', map_indexed f i xs = Throw e'.
Proof.
  intros i k x e Hk Hf.
  destruct (map_indexed f i xs) as [ys|e'] eqn:Hmap; [|eauto].
  destruct (map_indexed_Ok _ _ _ Hmap) as [_ Hrows].
  destruct (Hrows k x Hk) as (y & _ & Hy). congruence.
Qed.

End MapIndexed.

(** The result of a map depends on an element only through what the
    callback reads of it. *)
Lemma map_indexed_view {A B V} (view : A → V) (g : V → nat → result B)
    (xs ys : list A) (i : nat) :
  view <$> xs = view <$> ys →
  map_indexed (λ x, g (view x)) i xs = map_indexed (λ x, g (view x)) i ys.
Proof.
  revert ys i. induction xs as [|x xs IH]; intros [|y ys] i Hview;
    simpl in Hview; try discriminate; [reflexivity|].
  injection Hview as Hhead Htail. simpl. rewrite Hhead.
  destruct (g (view y) i); simpl; [|reflexivity].
  rewrite (IH ys (S i) Htail). reflexivity.
Qed.

(** ** The resolver *)

Section ResolverFacts.
Context `{SourceTools}.

Lemma contract_states_Ok (c : ContractDefinition) (rows : list State) :
  contract_states c = Ok rows →
  length rows = length (states_of c) ∧
  ∀ k d, states_of c !! k = Some d →
    ∃ t, structureToSignatureType (first_name d) (first_typeName d)
           (structs_of c) = Ok t
         ∧ rows !! k = Some {| slot := k; type := t; variable := first_name d |}.
Proof.
  intros Hrows. apply map_indexed_Ok in Hrows as [Hlen Hrows].
  split; [exact Hlen|]. intros k d Hk.
  destruct (Hrows k d Hk) as (row & Hrow & Hcall).
  unfold state_of_declaration in Hcall.
  apply bind_Ok in Hcall as (t & Ht & [= <-]). eauto.
Qed.

(** The loop appends to the accumulator the rows of each contract
    definition in turn. *)
Lemma for_of_collect (cs : list ContractDefinition) : ∀ (acc out : list State),
  for_of (λ list c, mapped ← contract_states c; Ok (list ++ mapped)) acc cs
    = Ok out ↔
  ∃ rows, Forall2 (λ c r, contract_states c = Ok r) cs rows
          ∧ out = acc ++ concat rows.
Proof.
  induction cs as [|c cs IH]; intros acc out; simpl.
  - split.
    + intros [= <-]. exists []. split; [constructor|]. simpl.
      rewrite app_nil_r. reflexivity.
    + intros (rows & Hall & ->). inversion Hall; subst. simpl.
      rewrite app_nil_r. reflexivity.
  - rewrite bind_Ok. split.
    + intros (acc' & Hstep & Hloop).
      apply bind_Ok in Hstep as (r & Hr & [= <-]).
      apply IH in Hloop as (rows & Hall & ->).
      exists (r :: rows). split; [constructor; assumption|].
      simpl. rewrite app_assoc. reflexivity.
    + intros (rows & Hall & ->). inversion Hall as [|? r ? rows' Hr Hall']; subst.
      exists (acc ++ r). split.
      * rewrite Hr. reflexivity.
      * apply IH. exists rows'. split; [assumption|].
        simpl. rewrite app_assoc. reflexivity.
Qed.

Lemma collected_length (cs : list ContractDefinition) (rows : list (list State)) :
  Forall2 (λ c r, contract_states c = Ok r) cs rows →
  length (concat rows) = length (all_declarations cs).
Proof.
  unfold all_declarations. induction 1 as [|c r cs rows Hr _ IH]; [reflexivity|].
  simpl. rewrite !length_app, IH.
  apply contract_states_Ok in Hr as [-> _]. reflexivity.
Qed.

Lemma getStates_Ok (src : string) (ast : SourceUnit) (out : list State) :
  parse src = Ok ast →
  getStatesFromSourceCode src = Ok out ↔
  ∃ rows, Forall2 (λ c r, contract_states c = Ok r) (contractDefinitions ast) rows
          ∧ out = concat rows.
Proof.
  intros Hparse. unfold getStatesFromSourceCode, collect_states.
  rewrite Hparse. simpl. rewrite for_of_collect. reflexivity.
Qed.

(** The row of the [k]-th declaration of a contract definition: it stands
    after the rows of the contract definitions before it, and its slot is
    [k]. *)
Lemma resolved_row (src : string) (ast : SourceUnit) (out : list State)
    (pre post : list ContractDefinition) (c : ContractDefinition)
    (k : nat) (d : StateVariableDeclaration) :
  parse src = Ok ast →
  contractDefinitions ast = pre ++ c :: post →
  getStatesFromSourceCode src = Ok out →
  states_of c !! k = Some d →
  ∃ t, structureToSignatureType (first_name d) (first_typeName d)
         (structs_of c) = Ok t
       ∧ out !! (length (all_declarations pre) + k)
         = Some {| slot := k; type := t; variable := first_name d |}.
Proof.
  intros Hparse Hsplit Hout Hk.
  apply (getStates_Ok _ _ _ Hparse) in Hout as (rows & Hall & ->).
  rewrite Hsplit in Hall.
  apply Forall2_app_inv_l in Hall as (rows1 & rows2 & Hpre & Hrest & ->).
  inversion Hrest as [|? r ? rows3 Hr Hpost]; subst.
  destruct (contract_states_Ok _ _ Hr) as [Hlen Hrows].
  destruct (Hrows k d Hk) as (t & Ht & Hrow).
  exists t. split; [exact Ht|].
  rewrite concat_app, <- (collected_length _ _ Hpre).
  rewrite lookup_app_r by lia.
  replace (length (concat rows1) + k - length (concat rows1)) with k by lia.
  simpl. apply lookup_app_l_Some. exact Hrow.
Qed.

Lemma resolved_length (src : string) (ast : SourceUnit) (out : list State) :
  parse src = Ok ast →
  getStatesFromSourceCode src = Ok out →
  length out = length (all_declarations (contractDefinitions ast)).
Proof.
  intros Hparse Hout.
  apply (getStates_Ok _ _ _ Hparse) in Hout as (rows & Hall & ->).
  apply collected_length. exact Hall.
Qed.

End ResolverFacts.

Section ResolverTheorems.
Context `{SourceTools}.

Lemma for_of_collect_Throw (cs : list ContractDefinition) :
  ∀ (acc : list State) (e : exn),
  for_of (λ list c, mapped ← contract_states c; Ok (list ++ mapped)) acc cs
    = Throw e →
  ∃ c, c ∈ cs ∧ contract_states c = Throw e.
Proof.
  induction cs as [|c cs IH]; intros acc e Hloop; simpl in Hloop.
  - discriminate.
  - apply bind_Throw in Hloop as [Hstep | (acc' & _ & Hloop)].
    + apply bind_Throw in Hstep as [Hc | (r & _ & Hno)]; [|discriminate].
      exists c. split; [left | exact Hc].
    + destruct (IH _ _ Hloop) as (c' & Hin & Hc').
      exists c'. split; [right; exact Hin | exact Hc'].
Qed.

(** C1 (amended).  Two sequential state variable declarations of a contract
    definition, the [k]-th and the next one, get the rows with the slots [k]
    and [k + 1], whatever their types and widths: the second always stands
    in the slot after the first's, so the packing law holds of the two rows
    exactly when the widths add up to more than 32. *)
Theorem sequential_declarations_take_consecutive_slots
    (src : string) (ast : SourceUnit) (out : list State)
    (pre post : list ContractDefinition) (c : ContractDefinition)
    (k : nat) (d1 d2 : StateVariableDeclaration) :
  parse src = Ok ast →
  contractDefinitions ast = pre ++ c :: post →
  states_of c !! k = Some d1 →
  states_of c !! S k = Some d2 →
  getStatesFromSourceCode src = Ok out →
  ∃ a b,
    out !! (length (all_declarations pre) + k) = Some a ∧
    out !! (length (all_declarations pre) + S k) = Some b ∧
    variable a = first_name d1 ∧ variable b = first_name d2 ∧
    slot a = k ∧ slot b = S (slot a) ∧
    ∀ w1 w2 : Z, packed_as_specified w1 w2 a b ↔ (32 < w1 + w2)%Z.
Proof.
  intros Hparse Hsplit Hd1 Hd2 Hout.
  destruct (resolved_row _ _ _ _ _ _ _ _ Hparse Hsplit Hout Hd1) as (t1 & _ & Ha).
  destruct (resolved_row _ _ _ _ _ _ _ _ Hparse Hsplit Hout Hd2) as (t2 & _ & Hb).
  eexists _, _. split; [exact Ha|]. split; [exact Hb|]. simpl.
  repeat split; try reflexivity.
  - unfold packed_as_specified. simpl. case_decide; [lia|intros _; lia].
  - unfold packed_as_specified. simpl. case_decide; [lia|reflexivity].
Qed.

(** C2 (amended).  A state variable declaration marked [constant] or
    [immutable] is resolved like any other: it gets a row, its slot is its
    index among the state variable declarations of its contract definition,
    the declaration after it gets the next slot, and the output has one row
    per declaration, marked ones included. *)
Theorem constant_declarations_take_a_slot
    (src : string) (ast : SourceUnit) (out : list State)
    (pre post : list ContractDefinition) (c : ContractDefinition)
    (k : nat) (d : StateVariableDeclaration) :
  parse src = Ok ast →
  contractDefinitions ast = pre ++ c :: post →
  states_of c !! k = Some d →
  is_constant d = true →
  getStatesFromSourceCode src = Ok out →
  (∃ a, out !! (length (all_declarations pre) + k) = Some a
        ∧ slot a = k ∧ variable a = first_name d) ∧
  (∀ d', states_of c !! S k = Some d' →
     ∃ b, out !! (length (all_declarations pre) + S k) = Some b
          ∧ slot b = S k ∧ variable b = first_name d') ∧
  length out = length (all_declarations (contractDefinitions ast)).
Proof.
  intros Hparse Hsplit Hd _ Hout. repeat split.
  - destruct (resolved_row _ _ _ _ _ _ _ _ Hparse Hsplit Hout Hd) as (t & _ & Ha).
    eexists. split; [exact Ha|]. split; reflexivity.
  - intros d' Hd'.
    destruct (resolved_row _ _ _ _ _ _ _ _ Hparse Hsplit Hout Hd') as (t & _ & Hb).
    eexists. split; [exact Hb|]. split; reflexivity.
  - exact (resolved_length _ _ _ Hparse Hout).
Qed.

(** C3 (amended).  Two distinct rows that stem from the same contract
    definition differ in slot, so they are disjoint whatever byte range is
    read off a row.  Nothing is said of rows of different contract
    definitions of one document. *)
Theorem rows_of_one_contract_have_distinct_slots
    (src : string) (ast : SourceUnit) (out : list State)
    (pre post : list ContractDefinition) (c : ContractDefinition)
    (i j : nat) (a b : State) :
  parse src = Ok ast →
  contractDefinitions ast = pre ++ c :: post →
  getStatesFromSourceCode src = Ok out →
  i < length (states_of c) → j < length (states_of c) → i ≠ j →
  out !! (length (all_declarations pre) + i) = Some a →
  out !! (length (all_declarations pre) + j) = Some b →
  slot a ≠ slot b ∧ ∀ range, disjoint_rows range a b.
Proof.
  intros Hparse Hsplit Hout Hi Hj Hne Ha Hb.
  destruct (lookup_lt_is_Some_2 _ _ Hi) as [di Hdi].
  destruct (lookup_lt_is_Some_2 _ _ Hj) as [dj Hdj].
  destruct (resolved_row _ _ _ _ _ _ _ _ Hparse Hsplit Hout Hdi) as (ti & _ & Ha').
  destruct (resolved_row _ _ _ _ _ _ _ _ Hparse Hsplit Hout Hdj) as (tj & _ & Hb').
  rewrite Ha in Ha'. rewrite Hb in Hb'.
  injection Ha' as ->. injection Hb' as ->.
  assert (Hslots : slot {| slot := i; type := ti; variable := first_name di |}
                   ≠ slot {| slot := j; type := tj; variable := first_name dj |})
    by (simpl; exact Hne).
  split; [exact Hslots|]. intros range. left. exact Hslots.
Qed.

Lemma contract_states_view (c1 c2 : ContractDefinition) :
  (λ d, (first_name d, first_typeName d)) <$> states_of c1
    = (λ d, (first_name d, first_typeName d)) <$> states_of c2 →
  structs_of c1 = structs_of c2 →
  contract_states c1 = contract_states c2.
Proof.
  intros Hdecls Hstructs. unfold contract_states, state_of_declaration.
  rewrite Hstructs.
  exact (map_indexed_view (λ d, (first_name d, first_typeName d))
           (λ v slot, type ← structureToSignatureType v.1 v.2 (structs_of c2);
                      Ok {| slot := slot; type := type; variable := v.1 |})
           _ _ 0 Hdecls).
Qed.

(** C4.  The resolver's output is a function of the declarations (name and
    type, in order) and the struct definitions of each contract definition:
    two runs on inputs that agree on them return the same list, row by row
    (same order, same slot, variable name and signature), or throw the same
    exception.  A row has no other field. *)
Theorem resolver_is_deterministic
    (src1 src2 : string) (ast1 ast2 : SourceUnit) :
  parse src1 = Ok ast1 →
  parse src2 = Ok ast2 →
  declared_input ast1 = declared_input ast2 →
  getStatesFromSourceCode src1 = getStatesFromSourceCode src2.
Proof.
  intros Hparse1 Hparse2 Hsame. unfold getStatesFromSourceCode, collect_states.
  rewrite Hparse1, Hparse2. simpl. unfold declared_input in Hsame.
  generalize (@nil State).
  revert Hsame. generalize (contractDefinitions ast2).
  induction (contractDefinitions ast1) as [|c1 cs1 IH]; intros [|c2 cs2] Hsame acc;
    simpl in Hsame; try discriminate; [reflexivity|].
  injection Hsame as Hdecls Hstructs Hrest. simpl.
  rewrite (contract_states_view c1 c2 Hdecls Hstructs).
  destruct (contract_states c2); simpl; [|reflexivity].
  apply IH. exact Hrest.
Qed.

Lemma declaration_of_document (cs : list ContractDefinition)
    (c : ContractDefinition) (k : nat) (d : StateVariableDeclaration) :
  c ∈ cs → states_of c !! k = Some d → d ∈ all_declarations cs.
Proof.
  unfold all_declarations. intros Hc Hd.
  induction cs as [|c0 cs IH]; [inversion Hc|]. simpl. apply elem_of_app.
  apply elem_of_cons in Hc as [<- | Hc].
  - left. exact (list_elem_of_lookup_2 _ _ _ Hd).
  - right. exact (IH Hc).
Qed.

(** C5 (amended).  The resolver runs no cycle check of its own.  For a
    parsed document, resolution throws exactly when the signature builder
    throws on a declared state variable (as it may on a struct that
    contains itself): then no row is returned for any variable of the
    document, and the exception is one the signature builder threw on a
    declared state variable.  A document that declares no state variable
    resolves to the empty list. *)
Theorem failing_signature_aborts_resolution
    (src : string) (ast : SourceUnit) :
  parse src = Ok ast →
  (∀ c k d e, c ∈ contractDefinitions ast → states_of c !! k = Some d →
     structureToSignatureType (first_name d) (first_typeName d) (structs_of c)
       = Throw e →
     ∃ e', getStatesFromSourceCode src = Throw e') ∧
  (∀ e', getStatesFromSourceCode src = Throw e' →
     ∃ c' k' d', c' ∈ contractDefinitions ast ∧ states_of c' !! k' = Some d' ∧
       structureToSignatureType (first_name d') (first_typeName d')
         (structs_of c') = Throw e') ∧
  (all_declarations (contractDefinitions ast) = [] →
   getStatesFromSourceCode src = Ok []).
Proof.
  intros Hparse.
  assert (Hthrown : ∀ e', getStatesFromSourceCode src = Throw e' →
            ∃ c' k' d', c' ∈ contractDefinitions ast ∧
              states_of c' !! k' = Some d' ∧
              structureToSignatureType (first_name d') (first_typeName d')
                (structs_of c') = Throw e').
  { intros e' Hthrow. unfold getStatesFromSourceCode, collect_states in Hthrow.
    rewrite Hparse in Hthrow. simpl in Hthrow.
    apply for_of_collect_Throw in Hthrow as (c' & Hin & Hc').
    apply map_indexed_Throw in Hc' as (k' & d' & Hk' & Hcall).
    unfold state_of_declaration in Hcall.
    apply bind_Throw in Hcall as [Hcall | (t & _ & Hno)]; [|discriminate].
    exists c', k', d'. auto. }
  split; [|split; [exact Hthrown|]].
  - intros c k d e Hc Hd He.
    destruct (getStatesFromSourceCode src) as [out|e'] eqn:Hout; [|eauto].
    apply list_elem_of_split in Hc as (pre & post & Hsplit).
    destruct (resolved_row _ _ _ _ _ _ _ _ Hparse Hsplit Hout Hd) as (t & Ht & _).
    congruence.
  - intros Hnone.
    destruct (getStatesFromSourceCode src) as [out|e'] eqn:Hout.
    + pose proof (resolved_length _ _ _ Hparse Hout) as Hlen.
      rewrite Hnone in Hlen. apply nil_length_inv in Hlen. congruence.
    + destruct (Hthrown e' eq_refl) as (c' & k' & d' & Hc' & Hd' & _).
      pose proof (declaration_of_document _ _ _ _ Hc' Hd') as Hin.
      rewrite Hnone in Hin. inversion Hin.
Qed.

End ResolverTheorems.

(** ** The resolver on the sample sources *)

Section ResolverExamples.
Local Existing Instance Sample.tools.

(** [contract C { bool a; uint256 b; }]: widths 1 and 32, slots 0 and 1. *)
Lemma sequential_declarations_witness :
  ∃ a b,
    [ {| slot := 0; type := "bool"; variable := Some "a" |};
      {| slot := 1; type := "uint256"; variable := Some "b" |} ] !! (0 + 0)
      = Some a ∧
    [ {| slot := 0; type := "bool"; variable := Some "a" |};
      {| slot := 1; type := "uint256"; variable := Some "b" |} ] !! (0 + 1)
      = Some b ∧
    variable a = Some "a" ∧ variable b = Some "b" ∧
    slot a = 0 ∧ slot b = S (slot a) ∧
    ∀ w1 w2 : Z, packed_as_specified w1 w2 a b ↔ (32 < w1 + w2)%Z.
Proof.
  apply (sequential_declarations_take_consecutive_slots
           Sample.bool_then_uint256
           (Sample.unit_of [ContractDefinitionNode Sample.pair_contract])
           _ [] [] Sample.pair_contract 0
           {| variables := [Sample.var "a" (ElementaryTypeName "bool")] |}
           {| variables := [Sample.var "b" Sample.uint256] |});
    reflexivity.
Defined.

(** Against the packing law of C1: in [contract C { uint8 a; uint8 b; }]
    the widths are 1 and 1, and [b] is put in slot 1, not beside [a] in
    slot 0. *)
Lemma two_uint8_are_not_packed :
  sizeOf Sample.uint8 = Some 1%Z ∧
  ∃ a b,
    getStatesFromSourceCode Sample.two_uint8 = Ok [a; b] ∧
    variable a = Some "a" ∧ variable b = Some "b" ∧
    slot a = 0 ∧ slot b = 1 ∧
    ¬ packed_as_specified 1 1 a b.
Proof.
  split; [reflexivity|]. eexists _, _. split; [reflexivity|].
  repeat split. unfold packed_as_specified. simpl. discriminate.
Qed.

(** [contract C { uint256 constant A = 1; uint256 b; }]: the constant is
    the declaration 0 of [C]. *)
Lemma constant_declarations_witness :
  (∃ a, [ {| slot := 0; type := "uint256"; variable := Some "A" |};
          {| slot := 1; type := "uint256"; variable := Some "b" |} ] !! (0 + 0)
        = Some a ∧ slot a = 0 ∧ variable a = Some "A") ∧
  (∀ d', states_of Sample.constant_contract !! 1 = Some d' →
     ∃ b, [ {| slot := 0; type := "uint256"; variable := Some "A" |};
            {| slot := 1; type := "uint256"; variable := Some "b" |} ] !! (0 + 1)
          = Some b ∧ slot b = 1 ∧ variable b = first_name d') ∧
  length [ {| slot := 0; type := "uint256"; variable := Some "A" |};
           {| slot := 1; type := "uint256"; variable := Some "b" |} ] = 2.
Proof.
  apply (constant_declarations_take_a_slot
           Sample.constant_first
           (Sample.unit_of [ContractDefinitionNode Sample.constant_contract])
           _ [] [] Sample.constant_contract 0
           {| variables := [Sample.constant "A" Sample.uint256] |});
    reflexivity.
Defined.

(** Against C2: in [contract C { uint256 constant A = 1; uint256 b; }] the
    constant [A] gets a row and slot 0, and [b] gets slot 1, whereas
    without [A] it gets slot 0. *)
Lemma constant_receives_a_row :
  ∃ ast c dA rA rb rb',
    parse Sample.constant_first = Ok ast ∧
    contractDefinitions ast = [c] ∧
    states_of c !! 0 = Some dA ∧ is_constant dA = true ∧
    getStatesFromSourceCode Sample.constant_first = Ok [rA; rb] ∧
    variable rA = Some "A" ∧ slot rA = 0 ∧
    variable rb = Some "b" ∧ slot rb = 1 ∧
    getStatesFromSourceCode Sample.without_constant = Ok [rb'] ∧
    variable rb' = Some "b" ∧ slot rb' = 0.
Proof.
  eexists _, _, _, _, _, _. repeat split; reflexivity.
Qed.

(** [contract C { bool a; uint256 b; }]: the rows of the declarations 0
    and 1 of [C]. *)
Lemma distinct_slots_witness :
  slot {| slot := 0; type := "bool"; variable := Some "a" |}
    ≠ slot {| slot := 1; type := "uint256"; variable := Some "b" |} ∧
  ∀ range, disjoint_rows range
             {| slot := 0; type := "bool"; variable := Some "a" |}
             {| slot := 1; type := "uint256"; variable := Some "b" |}.
Proof.
  apply (rows_of_one_contract_have_distinct_slots
           Sample.bool_then_uint256
           (Sample.unit_of [ContractDefinitionNode Sample.pair_contract])
           [ {| slot := 0; type := "bool"; variable := Some "a" |};
             {| slot := 1; type := "uint256"; variable := Some "b" |} ]
           [] [] Sample.pair_contract 0 1);
    first [reflexivity | simpl; lia].
Defined.

(** Against C3: for
    [contract A { uint256 x; } contract B { uint256 x; }] the output holds
    the same row twice, slot 0 both times; the two variables are 32 bytes
    wide each, so they cannot share a slot, and whatever non-empty byte
    range is read off a row, the two rows overlap. *)
Lemma two_contracts_share_slot_0 :
  sizeOf Sample.uint256 = Some 32%Z ∧
  ∃ a b,
    getStatesFromSourceCode Sample.two_contracts = Ok [a; b] ∧
    slot a = 0 ∧ slot b = 0 ∧ a = b ∧
    ∀ range : State → Z * Z, (0 < (range a).2)%Z → ¬ disjoint_rows range a b.
Proof.
  split; [reflexivity|]. eexists _, _. split; [reflexivity|].
  repeat split. intros range Hsize [Hslot | [Hlt | Hlt]].
  - apply Hslot. reflexivity.
  - lia.
  - lia.
Qed.

(** Two sources that differ in a marker and in a function definition, and
    agree on the declarations. *)
Lemma resolver_is_deterministic_witness :
  getStatesFromSourceCode Sample.constant_first
    = getStatesFromSourceCode Sample.unmarked_with_function.
Proof.
  apply (resolver_is_deterministic
           Sample.constant_first Sample.unmarked_with_function
           (Sample.unit_of [ContractDefinitionNode Sample.constant_contract])
           (Sample.unit_of [ContractDefinitionNode Sample.unmarked_contract]));
    reflexivity.
Defined.

(** [contract C { uint8 a; struct S { S s; } S root; }]: the sample
    signature builder refuses [root], the declaration 1 of [C]. *)
Lemma failing_signature_witness :
  (∀ c k d e,
     c ∈ contractDefinitions
            (Sample.unit_of [ContractDefinitionNode Sample.cyclic_contract]) →
     states_of c !! k = Some d →
     structureToSignatureType (first_name d) (first_typeName d) (structs_of c)
       = Throw e →
     ∃ e', getStatesFromSourceCode Sample.cyclic_used = Throw e') ∧
  (∀ e', getStatesFromSourceCode Sample.cyclic_used = Throw e' →
     ∃ c' k' d',
       c' ∈ contractDefinitions
              (Sample.unit_of [ContractDefinitionNode Sample.cyclic_contract]) ∧
       states_of c' !! k' = Some d' ∧
       structureToSignatureType (first_name d') (first_typeName d')
         (structs_of c') = Throw e') ∧
  (all_declarations
     (contractDefinitions
        (Sample.unit_of [ContractDefinitionNode Sample.cyclic_contract])) = [] →
   getStatesFromSourceCode Sample.cyclic_used = Ok []).
Proof.
  apply (failing_signature_aborts_resolution
           Sample.cyclic_used
           (Sample.unit_of [ContractDefinitionNode Sample.cyclic_contract])).
  reflexivity.
Defined.

(** Against C5: in [contract C { struct S { S s; } }] the struct
    [S] contains itself, no state variable is declared, and resolution
    returns the empty list without an exception, whatever the signature
    builder is. *)
Lemma unused_cyclic_struct_is_accepted :
  (∃ ast c,
     parse Sample.cyclic_unused = Ok ast ∧
     contractDefinitions ast = [c] ∧
     contains_itself (structs_of c) "S") ∧
  getStatesFromSourceCode Sample.cyclic_unused = Ok [] ∧
  ∀ signature,
    @getStatesFromSourceCode
      {| parse := Sample.sample_parse; structureToSignatureType := signature |}
      Sample.cyclic_unused = Ok [].
Proof.
  split; [|split; [reflexivity | intros signature; reflexivity]].
  eexists _, _. split; [reflexivity|]. split; [reflexivity|].
  apply tc_once. exists Sample.S_def, (Sample.var "s" (UserDefinedTypeName "S")).
  repeat split.
  - simpl. apply list_elem_of_here.
  - simpl. apply list_elem_of_here.
Qed.

End ResolverExamples.

(** ** The event extraction *)

(** C8.  [getEventsFromABI] returns the names of the entries of kind
    ["event"] and nothing else, in the order of the ABI (it is [event_names],
    and a sublist of all the names), a name as many times as there are
    event entries with it; a missing and an empty ABI give the empty list. *)
Theorem getEventsFromABI_names_of_events (abi : ABI) :
  getEventsFromABI None = [] ∧
  getEventsFromABI (Some []) = [] ∧
  getEventsFromABI (Some abi) = event_names abi ∧
  sublist (getEventsFromABI (Some abi)) (abi_name <$> abi) ∧
  ∀ n : string,
    length (filter (λ m, m = n) (getEventsFromABI (Some abi)))
    = length (filter (λ item, abi_type item = "event" ∧ abi_name item = n) abi).
Proof.
  split; [reflexivity|]. split; [reflexivity|]. unfold getEventsFromABI.
  induction abi as [|item rest (Hnames & Hsub & Hcount)].
  - split; [reflexivity|]. split; [constructor|]. intros n. reflexivity.
  - rewrite filter_cons. simpl. destruct (decide (abi_type item = "event")) as [Hev|Hev].
    + rewrite fmap_cons. split; [f_equal; exact Hnames|].
      split; [apply sublist_skip; exact Hsub|].
      intros n. rewrite !filter_cons.
      destruct (decide (abi_name item = n)) as [Hn|Hn].
      * rewrite decide_True by auto. simpl. f_equal. apply Hcount.
      * rewrite decide_False by (intros [_ Heq]; auto). apply Hcount.
    + split; [exact Hnames|].
      split; [apply sublist_cons; exact Hsub|].
      intros n. rewrite (filter_cons _ item).
      rewrite decide_False by (intros [Heq _]; auto). apply Hcount.
Qed.

(** ** The backfill worker *)

Lemma deliver_snoc (evs : list process_event) (ev : process_event) (w : Worker) :
  deliver (evs ++ [ev]) w = handle ev (deliver evs w).
Proof. unfold deliver. rewrite foldl_app. reflexivity. Qed.

(** Output on [stdout] and [stderr] is written to the console and leaves
    the promise as it is. *)
Lemma deliver_chunks_settled (chunks : list chunk) : ∀ w : Worker,
  settled (deliver (chunk_event <$> chunks) w) = settled w.
Proof.
  induction chunks as [|c chunks IH]; intros w; [reflexivity|].
  simpl. unfold deliver in *. simpl. rewrite IH. destruct c; reflexivity.
Qed.

(** C9.  The promise of [runBackfillService] is pending while the process
    runs, whatever it writes; when the process closes, the promise is
    resolved if the exit code is 0 and in no other case, and it is rejected
    with the exit code if the code is not 0. *)
Theorem backfill_promise_follows_exit_code
    (contractIds : list Z) (chunks : list chunk) (code : option Z) :
  let running := deliver (chunk_event <$> chunks) (spawn_worker contractIds) in
  let closed := deliver ((chunk_event <$> chunks) ++ [Close code])
                  (spawn_worker contractIds) in
  settled running = Pending ∧
  ((∃ v, settled closed = Resolved v) ↔ code = Some 0%Z) ∧
  (code = Some 0%Z → settled closed = Resolved (Some 0%Z)) ∧
  (code ≠ Some 0%Z → settled closed = Rejected code).
Proof.
  intros running closed.
  assert (Hrun : settled running = Pending)
    by (unfold running; rewrite deliver_chunks_settled; reflexivity).
  assert (Hclosed : settled closed
                    = if decide (code = Some 0%Z) then Resolved code else Rejected code).
  { unfold closed. rewrite deliver_snoc. fold running. simpl. rewrite Hrun.
    case_decide; reflexivity. }
  split; [exact Hrun|]. rewrite Hclosed. case_decide as Hcode.
  - subst code. repeat split; eauto. intros Hno. contradiction.
  - repeat split; try (intros; contradiction); try reflexivity.
    intros [v Hv]. discriminate.
Qed.

(** ** What the onboarding loop maintains *)

Section Respects.
Context {Env : Type} (R : World Env → World Env → Prop) `{!PreOrder R}.

Lemma respects_ret {A} (a : A) : respects R (mret a : M Env A).
Proof. intros w r w' [= <- <-]. reflexivity. Qed.

Lemma respects_throw {A} (e : exn) : respects R (throw e : M Env A).
Proof. intros w r w' [= <- <-]. reflexivity. Qed.

Lemma respects_pure {A} (x : result A) : respects R (pure x : M Env A).
Proof. intros w r w' [= <- <-]. reflexivity. Qed.

Lemma respects_call {A} (op : Env → result A * Env) :
  op_respects R op → respects R (call op).
Proof.
  intros Hop [e ws] r w'. unfold call. simpl.
  destruct (op e) as [r0 e'] eqn:Hrun. intros [= <- <-].
  exact (Hop ws e r0 e' Hrun).
Qed.

Lemma respects_bind {A B} (m : M Env A) (k : A → M Env B) :
  respects R m → (∀ a, respects R (k a)) → respects R (a ← m; k a).
Proof.
  intros Hm Hk w r w'. unfold mbind, M_bind.
  destruct (m w) as [[a|e] w1] eqn:Hrun.
  - intros Hrest. transitivity w1; [exact (Hm _ _ _ Hrun) | exact (Hk _ _ _ _ Hrest)].
  - intros [= <- <-]. exact (Hm _ _ _ Hrun).
Qed.

Lemma respects_try_catch {A} (body : M Env A) (handler : exn → M Env A) :
  respects R body → (∀ e, respects R (handler e)) →
  respects R (try_catch body handler).
Proof.
  intros Hbody Hhandler w r w'. unfold try_catch.
  destruct (body w) as [[a|e] w1] eqn:Hrun.
  - intros [= <- <-]. exact (Hbody _ _ _ Hrun).
  - intros Hrest. transitivity w1;
      [exact (Hbody _ _ _ Hrun) | exact (Hhandler _ _ _ _ Hrest)].
Qed.

Lemma respects_for_each {A S} (body : S → A → M Env S) (xs : list A) :
  (∀ s x, respects R (body s x)) → ∀ s, respects R (for_each body s xs).
Proof.
  intros Hbody. induction xs as [|x xs IH]; intros s; simpl.
  - apply respects_ret.
  - apply respects_bind; [apply Hbody | exact IH].
Qed.

End Respects.

#[global] Instance same_workers_preorder {Env} : PreOrder (@same_workers Env).
Proof.
  split.
  - intros w. reflexivity.
  - intros w1 w2 w3 H12 H23. unfold same_workers in *. congruence.
Qed.

#[global] Instance keeps_preorder {Env} (registered : Env → string → Prop) :
  PreOrder (keeps registered).
Proof.
  split.
  - intros w n Hn. exact Hn.
  - intros w1 w2 w3 H12 H23 n Hn. apply H23, H12, Hn.
Qed.

Section OnboardingFacts.
Context {Env : Type} `{SourceTools} `{Collaborators Env}.

Section Maintained.
Context (R : World Env → World Env → Prop) `{!PreOrder R}.
Hypothesis collaborators_ok : collaborators_respect R.

Lemma getContractData_respects (apiKey address : string) :
  respects R (getContractDataFromEtherscan apiKey address).
Proof.
  destruct collaborators_ok as (Hsource & _).
  unfold getContractDataFromEtherscan.
  apply respects_bind; [exact _ | apply respects_call, Hsource |].
  intros data. destruct (source_result data) as [[|[row|] rows]|];
    try (apply respects_throw; exact _).
  apply respects_bind; [exact _ | apply respects_pure; exact _ |].
  intros abi. apply respects_ret. exact _.
Qed.

Lemma getStartingBlock_respects (apiKey address : string) :
  respects R (getStartingBlockFromEtherscan apiKey address).
Proof.
  destruct collaborators_ok as (_ & Htx & _).
  unfold getStartingBlockFromEtherscan.
  apply respects_bind; [exact _ | apply respects_call, Htx |].
  intros data. destruct (tx_result data) as [[|[tx|] rows]|];
    try (apply respects_throw; exact _).
  destruct (blockNumber tx) as [n|]; [|apply respects_throw; exact _].
  destruct (truthy_json n);
    [apply respects_ret | apply respects_throw]; exact _.
Qed.

Lemma add_events_respects (eventNames : list string) :
  respects R (add_events eventNames).
Proof.
  destruct collaborators_ok as (_ & _ & Hevent & _).
  unfold add_events. apply respects_for_each; [exact _|].
  intros ids n. apply respects_bind; [exact _ | apply respects_call, Hevent |].
  intros ev. apply respects_ret. exact _.
Qed.

Lemma onboard_respects (apiKey address : string) :
  respects R (onboard apiKey address).
Proof.
  destruct collaborators_ok as (_ & _ & _ & Hcontract).
  unfold onboard.
  apply respects_bind; [exact _ | apply getContractData_respects |]. intros data.
  apply respects_bind; [exact _ | apply getStartingBlock_respects |]. intros block.
  apply respects_bind; [exact _ | apply respects_pure; exact _ |]. intros states.
  apply respects_bind; [exact _ | apply add_events_respects |]. intros ids.
  apply respects_call, Hcontract.
Qed.

Lemma outcomes_respects (apiKey : string) (addresses : list string) :
  ∀ w os w', outcomes apiKey addresses w = (os, w') → R w w'.
Proof.
  induction addresses as [|a rest IH]; intros w os w'; simpl.
  - intros [= <- <-]. reflexivity.
  - destruct (onboard apiKey a w) as [r w1] eqn:Hstep.
    destruct (outcomes apiKey rest w1) as [os' w2] eqn:Hrest.
    intros [= <- <-]. transitivity w1.
    + exact (onboard_respects _ _ _ _ _ Hstep).
    + exact (IH _ _ _ Hrest).
Qed.

End Maintained.

(** No collaborator launches or touches a worker. *)
Lemma collaborators_same_workers : collaborators_respect (@same_workers Env).
Proof. repeat split; intros ? ? ? ? ? _; reflexivity. Qed.

End OnboardingFacts.

(** ** The onboarding loop *)

Section OnboardingTheorems.
Context {Env : Type} `{SourceTools} `{Collaborators Env}.

(** An iteration never throws: it files the address under [success] (and
    the contract's id under [contractIds]) or under [fail]. *)
Lemma onboard_step_run (apiKey : string) (b : Batch) (address : string)
    (w : World Env) :
  onboard_step apiKey b address w =
  match onboard apiKey address w with
  | (Ok contract, w') =>
      (Ok {| success := success b ++ [address]; fail := fail b;
             contractIds := contractIds b ++ [contractId contract] |}, w')
  | (Throw e, w') =>
      (Ok {| success := success b; fail := fail b ++ [address];
             contractIds := contractIds b |}, w')
  end.
Proof.
  unfold onboard_step, try_catch, mbind, M_bind.
  destruct (onboard apiKey address w) as [[contract|e] w']; reflexivity.
Qed.

(** The loop, in terms of the outcome of each address. *)
Lemma for_each_onboard_step (apiKey : string) (addresses : list string) :
  ∀ (b : Batch) (w : World Env),
  for_each (onboard_step apiKey) b addresses w =
  (Ok {| success := success b ++ accepted (outcomes apiKey addresses w).1;
         fail := fail b ++ rejected (outcomes apiKey addresses w).1;
         contractIds :=
           contractIds b ++ accepted_ids (outcomes apiKey addresses w).1 |},
   (outcomes apiKey addresses w).2).
Proof.
  induction addresses as [|a rest IH]; intros b w.
  - simpl. rewrite !app_nil_r. destruct b; reflexivity.
  - simpl. unfold mbind, M_bind. rewrite onboard_step_run.
    destruct (onboard apiKey a w) as [[contract|e] w1]; rewrite IH;
      destruct (outcomes apiKey rest w1) as [os w2]; simpl;
      unfold accepted, rejected, accepted_ids; simpl;
      rewrite <- ?app_assoc; reflexivity.
Qed.

Lemma outcomes_addresses (apiKey : string) (addresses : list string) :
  ∀ w : World Env, (outcomes apiKey addresses w).1.*1 = addresses.
Proof.
  induction addresses as [|a rest IH]; intros w; [reflexivity|]. simpl.
  destruct (onboard apiKey a w) as [r w1]. specialize (IH w1).
  destruct (outcomes apiKey rest w1) as [os w2]. simpl in *.
  f_equal. exact IH.
Qed.

Lemma accepted_rejected_partition (os : list (string * result Contract)) :
  accepted os ++ rejected os ≡ₚ os.*1.
Proof.
  unfold accepted, rejected.
  induction os as [|[a [c|e]] os IH]; simpl; [reflexivity| |].
  - constructor. exact IH.
  - rewrite <- Permutation_middle. constructor. exact IH.
Qed.

Lemma accepted_ids_length (os : list (string * result Contract)) :
  length (accepted_ids os) = length (accepted os).
Proof.
  unfold accepted, accepted_ids.
  induction os as [|[a [c|e]] os IH]; simpl; [reflexivity| |exact IH].
  f_equal. exact IH.
Qed.

Lemma addContracts_run (apiKey : string) (addresses : list string)
    (w : World Env) :
  addContracts apiKey addresses w =
  (Ok (accepted (outcomes apiKey addresses w).1,
       rejected (outcomes apiKey addresses w).1),
   {| env := env (outcomes apiKey addresses w).2;
      workers :=
        workers (outcomes apiKey addresses w).2
          ++ (if bool_decide (accepted_ids (outcomes apiKey addresses w).1 ≠ [])
              then [spawn_worker (accepted_ids (outcomes apiKey addresses w).1)]
              else []) |}).
Proof.
  unfold addContracts, mbind at 1, M_bind at 1.
  rewrite for_each_onboard_step. simpl.
  destruct (outcomes apiKey addresses w) as [os w1]. simpl.
  case_bool_decide; simpl.
  - reflexivity.
  - rewrite app_nil_r. destruct w1; reflexivity.
Qed.

(** C6.  [addContracts] returns for every address list and never throws:
    [success] holds the addresses whose onboarding returned and [fail]
    those whose onboarding threw at some stage, every address of the batch
    having been processed in turn; together they are the input list, and
    when exactly one address fails, [success] has [N - 1] entries and
    [fail] has one. *)
Theorem addContracts_partitions_the_batch
    (apiKey : string) (addresses : list string) (w : World Env) :
  let os := (outcomes apiKey addresses w).1 in
  ∃ w', addContracts apiKey addresses w = (Ok (accepted os, rejected os), w') ∧
    os.*1 = addresses ∧
    (∀ a c, (a, Ok c) ∈ os → a ∈ accepted os) ∧
    (∀ a e, (a, Throw e) ∈ os → a ∈ rejected os) ∧
    accepted os ++ rejected os ≡ₚ addresses ∧
    (length (rejected os) = 1 →
     length (accepted os) = length addresses - 1).
Proof.
  intros os. eexists. split; [apply addContracts_run|].
  assert (Haddr : os.*1 = addresses) by apply outcomes_addresses.
  assert (Hperm : accepted os ++ rejected os ≡ₚ addresses)
    by (rewrite <- Haddr; apply accepted_rejected_partition).
  split; [exact Haddr|]. repeat split.
  - intros a c Hin. unfold accepted. apply list_elem_of_omap.
    exists (a, Ok c). split; [exact Hin | reflexivity].
  - intros a e Hin. unfold rejected. apply list_elem_of_omap.
    exists (a, Throw e). split; [exact Hin | reflexivity].
  - exact Hperm.
  - intros Hone. apply Permutation_length in Hperm.
    rewrite length_app in Hperm. lia.
Qed.

(** C7.  After the loop the backfill worker is launched exactly once, with
    the ids of the accepted contracts in the order of their addresses, if
    at least one address was accepted, and not at all if none was; no other
    worker is launched. *)
Theorem backfill_dispatched_once_iff_accepted
    (apiKey : string) (addresses : list string) (w : World Env) :
  let os := (outcomes apiKey addresses w).1 in
  ∃ r w', addContracts apiKey addresses w = (r, w') ∧
    length (accepted_ids os) = length (accepted os) ∧
    workers w' = workers w ++
      (if bool_decide (accepted os ≠ [])
       then [spawn_worker (accepted_ids os)]
       else []).
Proof.
  intros os. eexists _, _. split; [apply addContracts_run|].
  split; [apply accepted_ids_length|]. simpl. fold os.
  assert (Hsame : workers (outcomes apiKey addresses w).2 = workers w).
  { destruct (outcomes apiKey addresses w) as [os' w1] eqn:Hrun.
    exact (outcomes_respects same_workers collaborators_same_workers
             _ _ _ _ _ Hrun). }
  rewrite Hsame. f_equal.
  pose proof (accepted_ids_length os) as Hlen.
  destruct (accepted os) as [|a l]; destruct (accepted_ids os) as [|i l'];
    simpl in Hlen; try discriminate.
  - rewrite !bool_decide_eq_false_2 by (intros Hne; apply Hne; reflexivity).
    reflexivity.
  - rewrite !bool_decide_eq_true_2 by discriminate. reflexivity.
Qed.

End OnboardingTheorems.

(** ** Events created before a failed persist *)

Section EventsSurvive.
Context {Env : Type} `{SourceTools} `{Collaborators Env}.
Variable registered : Env → string → Prop.

(** What the database does: an event that was added is registered, and no
    collaborator of the loop removes a registered event, whether it returns
    or throws. *)
Hypothesis add_registers : ∀ n e ev e',
  eventRepository_add n e = (Ok ev, e') → registered e' n.
Hypothesis nothing_unregisters : collaborators_respect (keeps registered).

Lemma outcomes_app (apiKey : string) (pre post : list string) (a : string) :
  ∀ w : World Env,
  outcomes apiKey (pre ++ a :: post) w =
  ((outcomes apiKey pre w).1
     ++ (a, (onboard apiKey a (outcomes apiKey pre w).2).1)
     :: (outcomes apiKey post (onboard apiKey a (outcomes apiKey pre w).2).2).1,
   (outcomes apiKey post (onboard apiKey a (outcomes apiKey pre w).2).2).2).
Proof.
  induction pre as [|x pre IH]; intros w; simpl.
  - destruct (onboard apiKey a w) as [r w1]. simpl.
    destruct (outcomes apiKey post w1) as [os w2]. reflexivity.
  - destruct (onboard apiKey x w) as [r w1]. rewrite IH.
    destruct (outcomes apiKey pre w1) as [os w2]. reflexivity.
Qed.

Lemma add_events_registers (eventNames : list string) :
  ∀ (ids0 ids : list Z) (w w' : World Env),
  for_each (λ eventIds name,
              event ← call (eventRepository_add name);
              mret (eventIds ++ [eventId event]))
    ids0 eventNames w = (Ok ids, w') →
  ∀ n, n ∈ eventNames → registered (env w') n.
Proof.
  destruct nothing_unregisters as (_ & _ & Hevent & _).
  induction eventNames as [|x rest IH]; intros ids0 ids w w' Hrun n Hin.
  - inversion Hin.
  - simpl in Hrun. unfold mbind at 1, M_bind at 1 in Hrun.
    destruct ((event ← call (eventRepository_add x);
               mret (ids0 ++ [eventId event])) w) as [[ids1|e] w1] eqn:Hstep;
      [|discriminate].
    apply elem_of_cons in Hin as [-> | Hin]; [|exact (IH _ _ _ _ Hrun n Hin)].
    assert (Hx : registered (env w1) x).
    { unfold mbind, M_bind, call in Hstep. destruct w as [e0 ws]. simpl in Hstep.
      destruct (eventRepository_add x e0) as [[ev|err] e1] eqn:Hadd;
        [|discriminate].
      injection Hstep as _ <-. simpl. exact (add_registers _ _ _ _ Hadd). }
    refine (respects_for_each (keeps registered) _ rest _ ids1 w1 _ w' Hrun x Hx).
    intros ids2 name. apply respects_bind; [exact _ | apply respects_call, Hevent |].
    intros ev. apply respects_ret. exact _.
Qed.

(** C10.  When, for an address of a batch, the metadata is fetched, the
    source is resolved, the event entries are added and then
    [contractRepository.add] throws, the address is reported in [fail],
    the loop goes on with the next address, and every event added for the
    address is still registered when [addContracts] returns: nothing is
    rolled back. *)
Theorem failed_persist_leaves_events_registered
    (apiKey : string) (pre post : list string) (a : string)
    (w w1 w2 w3 w4 w5 : World Env)
    (os : list (string * result Contract)) (data : ContractData)
    (block : Json) (states : list State) (ids : list Z) (e : exn) :
  outcomes apiKey pre w = (os, w1) →
  getContractDataFromEtherscan apiKey a w1 = (Ok data, w2) →
  getStartingBlockFromEtherscan apiKey a w2 = (Ok block, w3) →
  getStatesFromSourceCode (data_sourceCode data) = Ok states →
  add_events (getEventsFromABI (data_abi data)) w3 = (Ok ids, w4) →
  call (contractRepository_add
          {| new_address := a; new_startingBlock := block;
             new_name := data_name data; new_abi := data_abi data;
             new_events := ids |}) w4 = (Throw e, w5) →
  ∃ wf,
    addContracts apiKey (pre ++ a :: post) w =
    (Ok (accepted os ++ accepted (outcomes apiKey post w5).1,
         rejected os ++ a :: rejected (outcomes apiKey post w5).1), wf) ∧
    ∀ n, n ∈ getEventsFromABI (data_abi data) → registered (env wf) n.
Proof.
  intros Hpre Hdata Hblock Hstates Hevents Hcontract.
  assert (Honboard : onboard apiKey a w1 = (Throw e, w5)).
  { unfold onboard, mbind, M_bind. rewrite Hdata, Hblock.
    unfold pure. rewrite Hstates, Hevents. exact Hcontract. }
  eexists. split.
  - rewrite addContracts_run, outcomes_app, Hpre. simpl. rewrite Honboard. simpl.
    unfold accepted, rejected. rewrite !omap_app. simpl. reflexivity.
  - intros n Hn. simpl.
    assert (H4 : registered (env w4) n)
      by exact (add_events_registers _ _ _ _ _ Hevents n Hn).
    assert (H5 : registered (env w5) n).
    { destruct nothing_unregisters as (_ & _ & _ & Hadd).
      exact (respects_call (keeps registered) _ (Hadd _) _ _ _ Hcontract n H4). }
    destruct (outcomes apiKey post w5) as [os' w6] eqn:Hpost. simpl.
    exact (outcomes_respects (keeps registered) nothing_unregisters
             _ _ _ _ _ Hpost n H5).
Qed.

End EventsSurvive.

(** ** The onboarding loop on the sample collaborators *)

Section OnboardingExamples.
Local Existing Instance Sample.tools.
Local Existing Instance Sample.collaborators.

Lemma sample_add_registers (n : string) (db : Sample.Db) (ev : Event)
    (db' : Sample.Db) :
  eventRepository_add n db = (Ok ev, db') → Sample.registered db' n.
Proof.
  simpl. unfold Sample.sample_event_add, Sample.registered.
  destruct (list_find (λ row, row = n) (Sample.event_rows db)) as [[i row]|] eqn:Hfind.
  - intros [= _ <-]. apply list_find_Some in Hfind as (Hrow & -> & _).
    apply list_elem_of_lookup. exists i. exact Hrow.
  - intros [= _ <-]. simpl. apply elem_of_app. right. apply list_elem_of_here.
Qed.

Lemma sample_nothing_unregisters :
  collaborators_respect (keeps Sample.registered).
Proof.
  repeat split; intros x ws db r db' Hrun n Hn; simpl in *.
  - unfold Sample.sample_sourcecode in Hrun.
    repeat case_match; injection Hrun as _ <-; exact Hn.
  - injection Hrun as _ <-. exact Hn.
  - unfold Sample.sample_event_add in Hrun.
    destruct (list_find _ _) as [[i row]|]; injection Hrun as _ <-; [exact Hn|].
    unfold Sample.registered in *. simpl. apply elem_of_app. left. exact Hn.
  - unfold Sample.sample_contract_add in Hrun.
    destruct (truthy_string _); injection Hrun as _ <-; exact Hn.
Qed.

(** The batch [0xA1; 0xC3; 0xB2]: [0xA1] is accepted; for [0xC3] the event
    [Deposit] is added and the contract table then refuses the contract;
    [0xB2] is unknown to the explorer. *)
Lemma failed_persist_witness :
  ∃ wf,
    addContracts "KEY" ["0xA1"; "0xC3"; "0xB2"] Sample.empty_world
      = (Ok (["0xA1"], ["0xC3"; "0xB2"]), wf) ∧
    ∀ n, n ∈ ["Deposit"] → Sample.registered (env wf) n.
Proof.
  edestruct (failed_persist_leaves_events_registered
               Sample.registered sample_add_registers sample_nothing_unregisters
               "KEY" ["0xA1"] ["0xB2"] "0xC3" Sample.empty_world)
    as (wf & Hrun & Hkept); [reflexivity..|].
  exists wf. split; [exact Hrun | exact Hkept].
Defined.

End OnboardingExamples.

(** ** Runs on the sample collaborators *)

Section Runs.
Local Existing Instance Sample.tools.
Local Existing Instance Sample.collaborators.

Example batch_of_three :
  (addContracts "KEY" ["0xA1"; "0xC3"; "0xB2"] Sample.empty_world).1
    = Ok (["0xA1"], ["0xC3"; "0xB2"]) ∧
  workers (addContracts "KEY" ["0xA1"; "0xC3"; "0xB2"] Sample.empty_world).2
    = [spawn_worker [1%Z]].
Proof. split; reflexivity. Qed.

Example batch_all_rejected :
  (addContracts "KEY" ["0xB2"; "0xC3"] Sample.empty_world).1
    = Ok ([], ["0xB2"; "0xC3"]) ∧
  workers (addContracts "KEY" ["0xB2"; "0xC3"] Sample.empty_world).2 = [].
Proof. split; reflexivity. Qed.

Example duplicate_event_names :
  getEventsFromABI
    (Some [ {| abi_type := "event"; abi_name := "Transfer" |};
            {| abi_type := "function"; abi_name := "balanceOf" |};
            {| abi_type := "event"; abi_name := "Transfer" |} ])
    = ["Transfer"; "Transfer"].
Proof. reflexivity. Qed.

Example worker_fails_with_status_1 :
  settled (deliver [StdoutData "start"; StderrData "boom"; Close (Some 1%Z)]
             (spawn_worker [7%Z]))
    = Rejected (Some 1%Z).
Proof. reflexivity. Qed.

Example worker_killed_by_signal :
  settled (deliver [Close None] (spawn_worker [7%Z])) = Rejected None.
Proof. reflexivity. Qed.

Example worker_succeeds :
  settled (deliver [StdoutData "done"; Close (Some 0%Z)] (spawn_worker [7%Z]))
    = Resolved (Some 0%Z).
Proof. reflexivity. Qed.

End Runs.

(** * Further properties of the service *)

(** ** The rows of a document *)

Section ResolverLayout.
Context `{SourceTools}.

Lemma map_indexed_rows (structs : list StructDefinition)
    (ds : list StateVariableDeclaration) : ∀ (i : nat) (rows : list State),
  map_indexed (state_of_declaration structs) i ds = Ok rows →
  slot <$> rows = seq i (length ds) ∧ variable <$> rows = first_name <$> ds.
Proof.
  induction ds as [|d ds IH]; intros i rows Hmap; simpl in Hmap.
  - injection Hmap as <-. split; reflexivity.
  - apply bind_Ok in Hmap as (row & Hrow & Hmap).
    apply bind_Ok in Hmap as (rows' & Hrest & [= <-]).
    unfold state_of_declaration in Hrow.
    apply bind_Ok in Hrow as (t & _ & [= <-]).
    destruct (IH _ _ Hrest) as [Hslots Hnames].
    split; simpl; f_equal; assumption.
Qed.

(** X1.  When a document resolves, its rows are, contract definition by
    contract definition in source order, one row per state variable
    declaration in source order: the slots count 0, 1, 2, ... within each
    contract definition and start again at 0 for the next, and each row
    carries the name of its declaration. *)
Theorem rows_follow_the_declarations
    (src : string) (ast : SourceUnit) (out : list State) :
  parse src = Ok ast →
  getStatesFromSourceCode src = Ok out →
  slot <$> out = concat (contract_slots <$> contractDefinitions ast) ∧
  variable <$> out = first_name <$> all_declarations (contractDefinitions ast).
Proof.
  intros Hparse Hout.
  apply (getStates_Ok _ _ _ Hparse) in Hout as (rows & Hall & ->).
  unfold all_declarations.
  induction Hall as [|c r cs rows Hr _ [IHslots IHnames]]; [split; reflexivity|].
  apply map_indexed_rows in Hr as [Hslots Hnames].
  simpl. rewrite !fmap_app, Hslots, Hnames, IHslots, IHnames.
  split; reflexivity.
Qed.

Lemma for_of_collect_acc (cs : list ContractDefinition) : ∀ acc : list State,
  for_of (λ list c, mapped ← contract_states c; Ok (list ++ mapped)) acc cs
  = (rows ← collect_states cs; Ok (acc ++ rows)).
Proof.
  unfold collect_states.
  induction cs as [|c cs IH]; intros acc; simpl.
  - rewrite app_nil_r. reflexivity.
  - destruct (contract_states c) as [mapped|e]; simpl; [|reflexivity].
    rewrite (IH (acc ++ mapped)), (IH mapped).
    destruct (for_of _ [] cs) as [rows|e]; simpl; [|reflexivity].
    rewrite app_assoc. reflexivity.
Qed.

Lemma collect_states_app (cs1 cs2 : list ContractDefinition) :
  collect_states (cs1 ++ cs2)
  = (rows1 ← collect_states cs1; rows2 ← collect_states cs2;
     Ok (rows1 ++ rows2)).
Proof.
  induction cs1 as [|c cs1 IH]; simpl.
  - destruct (collect_states cs2); reflexivity.
  - unfold collect_states in *. simpl.
    destruct (contract_states c) as [mapped|e]; simpl; [|reflexivity].
    rewrite (for_of_collect_acc (cs1 ++ cs2) mapped).
    rewrite (for_of_collect_acc cs1 mapped).
    unfold collect_states. rewrite IH.
    destruct (for_of _ [] cs1) as [rows1|e]; simpl; [|reflexivity].
    destruct (for_of _ [] cs2) as [rows2|e]; simpl; [|reflexivity].
    rewrite app_assoc. reflexivity.
Qed.

(** X2.  A contract definition is resolved on its own: a document whose
    contract definitions are those of a first document followed by those
    of a second resolves to the rows of the first followed by the rows of
    the second, and it throws what the first throws, or else what the
    second throws.  So the slots and signatures of a contract definition
    do not depend on the other contract definitions of its document. *)
Theorem resolution_is_per_contract
    (src src1 src2 : string) (ast ast1 ast2 : SourceUnit) :
  parse src = Ok ast →
  parse src1 = Ok ast1 →
  parse src2 = Ok ast2 →
  contractDefinitions ast = contractDefinitions ast1 ++ contractDefinitions ast2 →
  getStatesFromSourceCode src
  = (rows1 ← getStatesFromSourceCode src1;
     rows2 ← getStatesFromSourceCode src2;
     Ok (rows1 ++ rows2)).
Proof.
  intros Hparse Hparse1 Hparse2 Hsplit. unfold getStatesFromSourceCode.
  rewrite Hparse, Hparse1, Hparse2. simpl. rewrite Hsplit.
  apply collect_states_app.
Qed.

End ResolverLayout.

Section ResolverLayoutExamples.

Lemma rows_follow_the_declarations_witness :
  slot <$> [ {| slot := 0; type := "uint256"; variable := Some "x" |};
             {| slot := 0; type := "uint256"; variable := Some "x" |} ]
    = concat (contract_slots <$> [Sample.contract_A; Sample.contract_B]) ∧
  variable <$> [ {| slot := 0; type := "uint256"; variable := Some "x" |};
                 {| slot := 0; type := "uint256"; variable := Some "x" |} ]
    = first_name <$> all_declarations [Sample.contract_A; Sample.contract_B].
Proof.
  apply (rows_follow_the_declarations (H := Sample.tools)
           Sample.two_contracts
           (Sample.unit_of [ContractDefinitionNode Sample.contract_A;
                            ContractDefinitionNode Sample.contract_B]));
    reflexivity.
Defined.

Lemma resolution_is_per_contract_witness :
  getStatesFromSourceCode (H := Split.tools) Sample.two_contracts
  = (rows1 ← getStatesFromSourceCode (H := Split.tools) Split.only_A;
     rows2 ← getStatesFromSourceCode (H := Split.tools) Split.only_B;
     Ok (rows1 ++ rows2)).
Proof.
  apply (resolution_is_per_contract (H := Split.tools)
           Sample.two_contracts Split.only_A Split.only_B
           (Sample.unit_of [ContractDefinitionNode Sample.contract_A;
                            ContractDefinitionNode Sample.contract_B])
           (Sample.unit_of [ContractDefinitionNode Sample.contract_A])
           (Sample.unit_of [ImportDirectiveNode "./A.sol";
                            ContractDefinitionNode Sample.contract_B]));
    reflexivity.
Defined.

End ResolverLayoutExamples.

(** ** The two questions to the explorer *)

Section Explorer.
Context {Env : Type} `{Collaborators Env}.

(** X3.  [getStartingBlockFromEtherscan] asks the explorer once, for the
    transaction list of the address.  An exception of the request is
    passed on; a missing or empty [result] makes it throw
    ["Oops, something wrong with etherscan API"].  What it returns is the
    [blockNumber] of the first transaction of the answer as it stands
    there, not converted, and it returns it exactly when it is truthy: so
    never the number 0, [null], [false] or the empty string, whereas a
    non-empty string, the string ["0"] too, is returned (later transactions
    are not looked at). *)
Theorem starting_block_is_first_and_truthy
    (apiKey address : string) (w w' : World Env) (r : result Json) :
  getStartingBlockFromEtherscan apiKey address w = (r, w') →
  ∃ answer,
    call (fetch_txlist
            ("https://api.etherscan.io/api?module=account&action=txlist&page=1&offset=3&sort=asc&address="
               +:+ address +:+ "&apikey=" +:+ apiKey)) w = (answer, w') ∧
    (∀ e, answer = Throw e → r = Throw e) ∧
    (∀ data, answer = Ok data →
       tx_result data = None ∨ tx_result data = Some [] →
       r = Throw (Error "Oops, something wrong with etherscan API")) ∧
    (∀ v, r = Ok v →
       truthy_json v = true ∧
       ∃ data rest, answer = Ok data ∧
         tx_result data = Some (Some {| blockNumber := Some v |} :: rest)) ∧
    (∀ data rest v, answer = Ok data →
       tx_result data = Some (Some {| blockNumber := Some v |} :: rest) →
       truthy_json v = true → r = Ok v).
Proof.
  unfold getStartingBlockFromEtherscan, mbind, M_bind. cbv zeta.
  destruct (call _ w) as [[data|e] w1] eqn:Hcall.
  - destruct (tx_result data) as [[|[[[v|]]|] rest]|] eqn:Hres; simpl;
      try destruct (truthy_json v) eqn:Hv; unfold throw; simpl;
      intros [= <- <-]; exists (Ok data); (split; [reflexivity|]).
    all: repeat split; try discriminate.
    all: try (intros data' [= <-] [Hno|Hno]; congruence).
    all: try (intros data' rest' v' [= <-] Hres' Hv'; rewrite Hres in Hres';
              simplify_eq; congruence).
    + match goal with Hb : Ok _ = Ok _ |- _ => injection Hb as <- end.
      exact Hv.
    + match goal with Hb : Ok _ = Ok _ |- _ => injection Hb as <- end.
      exists data, rest. split; [reflexivity | exact Hres].
  - intros [= <- <-]. exists (Throw e). split; [reflexivity|].
    split; [intros e' [= <-]; reflexivity|].
    repeat split; discriminate.
Qed.

(** X4.  [getContractDataFromEtherscan] asks the explorer once, for the
    source code of the address.  A missing [result] makes it throw a
    [TypeError] (it reads [data.result.length] before it checks
    [data.result]).  When it returns, name and source code are those of the
    first row of the answer; the ABI is [null] when the row has no ABI text
    or the empty one, and otherwise it is what [JSON.parse] returns for the
    text, an ABI or, as for the text ["null"], [null]; when [JSON.parse]
    throws on the text of the first row, that exception is thrown. *)
Theorem contract_data_is_first_row
    (apiKey address : string) (w w' : World Env) (r : result ContractData) :
  getContractDataFromEtherscan apiKey address w = (r, w') →
  ∃ answer,
    call (fetch_sourcecode
            ("https://api.etherscan.io/api?module=contract&action=getsourcecode&address="
               +:+ address +:+ "&apikey=" +:+ apiKey)) w = (answer, w') ∧
    (∀ data, answer = Ok data → source_result data = None →
       ∃ message, r = Throw (TypeError message)) ∧
    (∀ data row rest text e, answer = Ok data →
       source_result data = Some (Some row :: rest) →
       ABI_text row = Some text → text ≠ "" → JSON_parse text = Throw e →
       r = Throw e) ∧
    (∀ d, r = Ok d →
       ∃ data row rest, answer = Ok data ∧
         source_result data = Some (Some row :: rest) ∧
         data_name d = ContractName row ∧
         data_sourceCode d = SourceCode row ∧
         (ABI_text row = None ∨ ABI_text row = Some "" → data_abi d = None) ∧
         (∀ text, ABI_text row = Some text → text ≠ "" →
            JSON_parse text = Ok (data_abi d))).
Proof.
  unfold getContractDataFromEtherscan, mbind, M_bind, pure, throw. cbv zeta.
  destruct (call _ w) as [[data|e] w1] eqn:Hcall.
  - destruct (source_result data) as [[|[row|] rest]|] eqn:Hres; simpl;
      try (destruct (ABI_text row) as [[|c text]|] eqn:Htext; simpl;
           try destruct (JSON_parse (String c text)) as [abi|e] eqn:Hparse;
           simpl);
      intros [= <- <-]; exists (Ok data); (split; [reflexivity|]).
    all: repeat split; try discriminate; eauto.
    all: try (intros; congruence).
    all: intros d [= <-]; exists data, row, rest; simpl.
    all: repeat split; auto; try discriminate.
    all: try (intros [Hno | Hno]; rewrite Htext in Hno; discriminate).
    all: intros text' Htext' Hne; rewrite Htext in Htext'; simplify_eq;
      first [exact Hparse | contradiction].
  - intros [= <- <-]. exists (Throw e). split; [reflexivity|].
    repeat split; discriminate.
Qed.

End Explorer.

Section ExplorerExamples.
Local Existing Instance Sample.collaborators.

Lemma starting_block_witness :
  ∃ answer,
    call (fetch_txlist
            ("https://api.etherscan.io/api?module=account&action=txlist&page=1&offset=3&sort=asc&address="
               +:+ "0xA1" +:+ "&apikey=" +:+ "KEY")) Sample.empty_world
      = (answer, Sample.empty_world) ∧
    (∀ e, answer = Throw e → Ok (JString "4634748") = Throw e) ∧
    (∀ data, answer = Ok data →
       tx_result data = None ∨ tx_result data = Some [] →
       Ok (JString "4634748")
       = Throw (Error "Oops, something wrong with etherscan API")) ∧
    (∀ v, Ok (JString "4634748") = Ok v →
       truthy_json v = true ∧
       ∃ data rest, answer = Ok data ∧
         tx_result data = Some (Some {| blockNumber := Some v |} :: rest)) ∧
    (∀ data rest v, answer = Ok data →
       tx_result data = Some (Some {| blockNumber := Some v |} :: rest) →
       truthy_json v = true → Ok (JString "4634748") = Ok v).
Proof.
  apply (starting_block_is_first_and_truthy "KEY" "0xA1"). reflexivity.
Defined.

Lemma contract_data_witness :
  ∃ answer,
    call (fetch_sourcecode
            ("https://api.etherscan.io/api?module=contract&action=getsourcecode&address="
               +:+ "0xA1" +:+ "&apikey=" +:+ "KEY")) Sample.empty_world
      = (answer, Sample.empty_world) ∧
    (∀ data, answer = Ok data → source_result data = None →
       ∃ message, Ok Expected.token_data = Throw (TypeError message)) ∧
    (∀ data row rest text e, answer = Ok data →
       source_result data = Some (Some row :: rest) →
       ABI_text row = Some text → text ≠ "" → JSON_parse text = Throw e →
       Ok Expected.token_data = Throw e) ∧
    (∀ d, Ok Expected.token_data = Ok d →
       ∃ data row rest, answer = Ok data ∧
         source_result data = Some (Some row :: rest) ∧
         data_name d = ContractName row ∧
         data_sourceCode d = SourceCode row ∧
         (ABI_text row = None ∨ ABI_text row = Some "" → data_abi d = None) ∧
         (∀ text, ABI_text row = Some text → text ≠ "" →
            JSON_parse text = Ok (data_abi d))).
Proof.
  apply (contract_data_is_first_row "KEY" "0xA1"). reflexivity.
Defined.

End ExplorerExamples.

(** ** The stages of one onboarding *)

Lemma for_each_app {Env A S} (body : S → A → M Env S) (xs ys : list A) :
  ∀ (s : S) (w : World Env),
  for_each body s (xs ++ ys) w =
  match for_each body s xs w with
  | (Ok s', w1) => for_each body s' ys w1
  | (Throw e, w1) => (Throw e, w1)
  end.
Proof.
  induction xs as [|x xs IH]; intros s w; simpl; [reflexivity|].
  unfold mbind, M_bind. destruct (body s x w) as [[s1|e] w1]; [|reflexivity].
  apply IH.
Qed.

Section Stages.
Context {Env : Type} `{SourceTools} `{Collaborators Env}.

(** X5.  The database is written only once the source is resolved: when
    the two questions to the explorer are answered and the resolver throws
    on the source code, the onboarding of the address throws the resolver's
    exception in the world left by the second answer, so neither
    repository is called; a batch of this one address reports it in [fail]
    and launches no worker. *)
Theorem unresolved_source_writes_nothing
    (apiKey address : string) (w w2 w3 : World Env)
    (data : ContractData) (block : Json) (e : exn) :
  getContractDataFromEtherscan apiKey address w = (Ok data, w2) →
  getStartingBlockFromEtherscan apiKey address w2 = (Ok block, w3) →
  getStatesFromSourceCode (data_sourceCode data) = Throw e →
  onboard apiKey address w = (Throw e, w3) ∧
  addContracts apiKey [address] w = (Ok ([], [address]), w3).
Proof.
  intros Hdata Hblock Hstates.
  assert (Honboard : onboard apiKey address w = (Throw e, w3)).
  { unfold onboard, mbind, M_bind. rewrite Hdata, Hblock.
    unfold pure. rewrite Hstates. reflexivity. }
  split; [exact Honboard|].
  rewrite addContracts_run. simpl. rewrite Honboard. simpl.
  rewrite app_nil_r. destruct w3; reflexivity.
Qed.

Lemma add_events_from (eventNames : list string) :
  ∀ (ids0 ids : list Z) (w w' : World Env),
  for_each (λ eventIds name,
              event ← call (eventRepository_add name);
              mret (eventIds ++ [eventId event]))
    ids0 eventNames w = (Ok ids, w') ↔
  ∃ new, ids = ids0 ++ new ∧ returned_in_turn eventNames w new w'.
Proof.
  induction eventNames as [|n rest IH]; intros ids0 ids w w'; simpl.
  - split.
    + intros [= <- <-]. exists []. rewrite app_nil_r. split; reflexivity.
    + intros ([|id new] & -> & Hrun); [|contradiction].
      simpl in Hrun. subst w'. rewrite app_nil_r. reflexivity.
  - unfold mbind at 1, M_bind at 1. unfold mbind at 1, M_bind at 1.
    destruct (call (eventRepository_add n) w) as [[ev|err] w1] eqn:Hadd.
    + change ((mret (ids0 ++ [eventId ev]) : M Env (list Z)) w1)
        with (Ok (ids0 ++ [eventId ev]), w1).
      cbv beta iota. rewrite IH. split.
      * intros (new & -> & Hrest). exists (eventId ev :: new).
        rewrite <- app_assoc. split; [reflexivity|].
        exists ev, w1. auto.
      * intros ([|id new] & -> & Hrun); [contradiction|].
        destruct Hrun as (ev' & w1' & [= <- <-] & <- & Hrest).
        exists new. rewrite <- app_assoc. split; [reflexivity | exact Hrest].
    + split; [discriminate|].
      intros ([|id new] & _ & Hrun); [contradiction|].
      destruct Hrun as (ev' & w1' & Hno & _). discriminate.
Qed.

Lemma returned_in_turn_length (eventNames : list string) :
  ∀ (ids : list Z) (w w' : World Env),
  returned_in_turn eventNames w ids w' → length ids = length eventNames.
Proof.
  induction eventNames as [|n rest IH]; intros [|id ids] w w' Hrun;
    simpl in Hrun; try contradiction; [reflexivity|].
  destruct Hrun as (ev & w1 & _ & _ & Hrest). simpl. f_equal.
  exact (IH _ _ _ Hrest).
Qed.

(** X6.  [add_events] returns exactly when every event name is added in
    turn, and then it returns the ids of this run: the [k]-th id is the
    [eventId] of the event the repository returned for the [k]-th name,
    called in the world the calls for the names before it left, and the
    world it leaves is the one the last call left.  So there is one id per
    event name, in the order of the names, duplicates included. *)
Theorem add_events_one_id_per_name
    (eventNames : list string) (ids : list Z) (w w' : World Env) :
  (add_events eventNames w = (Ok ids, w') ↔
   returned_in_turn eventNames w ids w') ∧
  (add_events eventNames w = (Ok ids, w') → length ids = length eventNames).
Proof.
  assert (Hrun : add_events eventNames w = (Ok ids, w') ↔
                 returned_in_turn eventNames w ids w').
  { unfold add_events. rewrite add_events_from. split.
    - intros (new & -> & Hnew). exact Hnew.
    - intros Hnew. exists ids. split; [reflexivity | exact Hnew]. }
  split; [exact Hrun|]. intros Hok. apply Hrun in Hok.
  exact (returned_in_turn_length _ _ _ _ Hok).
Qed.

(** X7.  [add_events] stops at the first name the repository refuses: when
    the names before it are added and its own [add] throws, [add_events]
    throws that exception in the world the refused [add] left, whatever
    names follow; these are not added and the ids obtained so far are
    lost. *)
Theorem add_events_stops_at_first_failure
    (before after : list string) (n : string) (ids : list Z)
    (w w1 w2 : World Env) (e : exn) :
  add_events before w = (Ok ids, w1) →
  call (eventRepository_add n) w1 = (Throw e, w2) →
  add_events (before ++ n :: after) w = (Throw e, w2).
Proof.
  unfold add_events. intros Hbefore Hadd.
  rewrite for_each_app, Hbefore. simpl.
  unfold mbind at 1, M_bind at 1. unfold mbind at 1, M_bind at 1.
  rewrite Hadd. reflexivity.
Qed.

End Stages.

Section StagesExamples.
Local Existing Instance Sample.tools.

(** The source of [0xD4] is [contract C { uint8 a; struct S { S s; } S root; }]. *)
Lemma unresolved_source_witness :
  onboard (H0 := Strict.collaborators) "KEY" "0xD4" Sample.empty_world
    = (Throw (Error "CyclicStruct"), Sample.empty_world) ∧
  addContracts (H0 := Strict.collaborators) "KEY" ["0xD4"] Sample.empty_world
    = (Ok ([], ["0xD4"]), Sample.empty_world).
Proof.
  apply (unresolved_source_writes_nothing (H0 := Strict.collaborators)
           "KEY" "0xD4" Sample.empty_world Sample.empty_world Sample.empty_world
           {| data_name := "Tree";
              data_abi := Some [ {| abi_type := "event"; abi_name := "Deposit" |} ];
              data_sourceCode := Sample.cyclic_used |}
           (JString "4634748"));
    reflexivity.
Defined.

(** The two [Transfer] entries of the token's ABI get the id 1 twice: the
    first call creates the event, the second finds it. *)
Lemma add_events_witness :
  returned_in_turn (H := Sample.collaborators) ["Transfer"; "Transfer"]
    Sample.empty_world [1%Z; 1%Z] Strict.after_transfer ∧
  length [1%Z; 1%Z] = length ["Transfer"; "Transfer"].
Proof.
  destruct (add_events_one_id_per_name (H0 := Sample.collaborators)
              ["Transfer"; "Transfer"] [1%Z; 1%Z]
              Sample.empty_world Strict.after_transfer) as [Hrun Hlength].
  split; [apply Hrun | apply Hlength]; reflexivity.
Defined.

(** [Transfer] is added, the empty name is refused, [Deposit] is not
    tried. *)
Lemma add_events_failure_witness :
  add_events (H0 := Strict.collaborators) (["Transfer"] ++ "" :: ["Deposit"])
    Sample.empty_world
  = (Throw (Raised "null value in column name violates not-null constraint"),
     Strict.after_transfer).
Proof.
  apply (add_events_stops_at_first_failure (H0 := Strict.collaborators)
           ["Transfer"] ["Deposit"] "" [1%Z]
           Sample.empty_world Strict.after_transfer Strict.after_transfer);
    reflexivity.
Defined.

End StagesExamples.

(** ** Batches *)

Section WorkerBlind.
Context {Env : Type}.

Lemma blind_ret {A} (a : A) : worker_blind (mret a : M Env A).
Proof. intros e ws. exists (Ok a), e. split; reflexivity. Qed.

Lemma blind_throw {A} (x : exn) : worker_blind (throw x : M Env A).
Proof. intros e ws. exists (Throw x), e. split; reflexivity. Qed.

Lemma blind_pure {A} (r : result A) : worker_blind (pure r : M Env A).
Proof. intros e ws. exists r, e. split; reflexivity. Qed.

Lemma blind_call {A} (op : Env → result A * Env) : worker_blind (call op).
Proof.
  intros e ws. unfold call. simpl. destruct (op e) as [r e'].
  exists r, e'. split; reflexivity.
Qed.

Lemma blind_bind {A B} (m : M Env A) (k : A → M Env B) :
  worker_blind m → (∀ a, worker_blind (k a)) → worker_blind (a ← m; k a).
Proof.
  intros Hm Hk e ws. unfold mbind, M_bind.
  destruct (Hm e ws) as ([a|x] & e1 & Hrun & Hany).
  - destruct (Hk a e1 ws) as (r & e2 & Hrun2 & Hany2).
    exists r, e2. rewrite Hrun. split; [exact Hrun2|].
    intros ws'. rewrite Hany. apply Hany2.
  - exists (Throw x), e1. rewrite Hrun. split; [reflexivity|].
    intros ws'. rewrite Hany. reflexivity.
Qed.

Lemma blind_for_each {A S} (body : S → A → M Env S) (xs : list A) :
  (∀ s x, worker_blind (body s x)) → ∀ s, worker_blind (for_each body s xs).
Proof.
  intros Hbody. induction xs as [|x xs IH]; intros s; simpl.
  - apply blind_ret.
  - apply blind_bind; [apply Hbody | exact IH].
Qed.

End WorkerBlind.

Section Batches.
Context {Env : Type} `{SourceTools} `{Collaborators Env}.

Lemma onboard_blind (apiKey address : string) :
  worker_blind (onboard apiKey address).
Proof.
  unfold onboard.
  apply blind_bind.
  { unfold getContractDataFromEtherscan.
    apply blind_bind; [apply blind_call|]. intros data.
    destruct (source_result data) as [[|[row|] rows]|];
      try apply blind_throw.
    apply blind_bind; [apply blind_pure|]. intros abi. apply blind_ret. }
  intros data. apply blind_bind.
  { unfold getStartingBlockFromEtherscan.
    apply blind_bind; [apply blind_call|]. intros answer.
    destruct (tx_result answer) as [[|[tx|] rows]|]; try apply blind_throw.
    destruct (blockNumber tx) as [n|]; [|apply blind_throw].
    destruct (truthy_json n); [apply blind_ret | apply blind_throw]. }
  intros block. apply blind_bind; [apply blind_pure|]. intros states.
  apply blind_bind; [|intros ids; apply blind_call].
  unfold add_events. apply blind_for_each. intros ids name.
  apply blind_bind; [apply blind_call|]. intros ev. apply blind_ret.
Qed.

Lemma outcomes_blind (apiKey : string) (addresses : list string) :
  ∀ e ws, ∃ os e',
    outcomes apiKey addresses {| env := e; workers := ws |}
      = (os, {| env := e'; workers := ws |}) ∧
    ∀ ws', outcomes apiKey addresses {| env := e; workers := ws' |}
           = (os, {| env := e'; workers := ws' |}).
Proof.
  induction addresses as [|a rest IH]; intros e ws; simpl.
  - exists [], e. split; reflexivity.
  - destruct (onboard_blind apiKey a e ws) as (r & e1 & Hrun & Hany).
    destruct (IH e1 ws) as (os & e2 & Hrest & Hrest_any).
    exists ((a, r) :: os), e2. rewrite Hrun, Hrest. split; [reflexivity|].
    intros ws'. rewrite Hany, Hrest_any. reflexivity.
Qed.

Lemma outcomes_append (apiKey : string) (xs ys : list string) :
  ∀ w : World Env,
  outcomes apiKey (xs ++ ys) w =
  ((outcomes apiKey xs w).1 ++ (outcomes apiKey ys (outcomes apiKey xs w).2).1,
   (outcomes apiKey ys (outcomes apiKey xs w).2).2).
Proof.
  induction xs as [|x xs IH]; intros w; simpl.
  - destruct (outcomes apiKey ys w); reflexivity.
  - destruct (onboard apiKey x w) as [r w1]. rewrite IH.
    destruct (outcomes apiKey xs w1) as [os w2]. reflexivity.
Qed.

Lemma accepted_sublist (os : list (string * result Contract)) :
  accepted os `sublist_of` os.*1 ∧ rejected os `sublist_of` os.*1.
Proof.
  unfold accepted, rejected.
  induction os as [|[a [c|e]] os [IHa IHr]]; simpl.
  - split; constructor.
  - split; [apply sublist_skip | apply sublist_cons]; assumption.
  - split; [apply sublist_cons | apply sublist_skip]; assumption.
Qed.

(** X8.  [success] and [fail] keep the order of the input: each is what is
    left of the address list when the addresses of the other are struck
    out.  When no address occurs twice in the input, none is reported in
    both. *)
Theorem addContracts_keeps_the_input_order
    (apiKey : string) (addresses s f : list string) (w w' : World Env) :
  addContracts apiKey addresses w = (Ok (s, f), w') →
  s `sublist_of` addresses ∧ f `sublist_of` addresses ∧
  (NoDup addresses → ∀ a, a ∈ s → a ∉ f).
Proof.
  rewrite addContracts_run. intros [= <- <- _].
  pose proof (accepted_sublist (outcomes apiKey addresses w).1) as [Hs Hf].
  rewrite outcomes_addresses in Hs, Hf. split; [exact Hs|]. split; [exact Hf|].
  intros Hnodup.
  pose proof (accepted_rejected_partition (outcomes apiKey addresses w).1) as Hperm.
  rewrite outcomes_addresses in Hperm. rewrite <- Hperm in Hnodup.
  apply NoDup_app in Hnodup as (_ & Hdisjoint & _). exact Hdisjoint.
Qed.

(** X9.  A batch can be split: running [addContracts] on a first list and
    then, in the world it leaves, on a second list reports the same
    addresses in [success] and in [fail], and leaves the collaborators in
    the same state, as one run on the two lists joined. *)
Theorem addContracts_of_a_split_batch
    (apiKey : string) (xs ys s1 f1 s2 f2 : list string) (w w1 w2 : World Env) :
  addContracts apiKey xs w = (Ok (s1, f1), w1) →
  addContracts apiKey ys w1 = (Ok (s2, f2), w2) →
  ∃ w', addContracts apiKey (xs ++ ys) w = (Ok (s1 ++ s2, f1 ++ f2), w') ∧
        env w' = env w2.
Proof.
  rewrite !addContracts_run. intros [= <- <- <-]. simpl.
  destruct w as [e ws].
  destruct (outcomes_blind apiKey xs e ws) as (os1 & e1 & Hxs & _).
  rewrite outcomes_append, Hxs. simpl.
  destruct (outcomes_blind apiKey ys e1 ws) as (os2 & e2 & Hys & Hany).
  rewrite Hys, Hany. simpl. intros [= <- <- <-]. simpl.
  eexists. split.
  - unfold accepted, rejected. rewrite !omap_app. reflexivity.
  - reflexivity.
Qed.

End Batches.

Section BatchesExamples.
Local Existing Instance Sample.tools.
Local Existing Instance Sample.collaborators.

Lemma input_order_witness :
  ["0xA1"] `sublist_of` ["0xA1"; "0xC3"; "0xB2"] ∧
  ["0xC3"; "0xB2"] `sublist_of` ["0xA1"; "0xC3"; "0xB2"] ∧
  (NoDup ["0xA1"; "0xC3"; "0xB2"] → ∀ a, a ∈ ["0xA1"] → a ∉ ["0xC3"; "0xB2"]).
Proof.
  apply (addContracts_keeps_the_input_order "KEY" ["0xA1"; "0xC3"; "0xB2"]
           ["0xA1"] ["0xC3"; "0xB2"] Sample.empty_world
           (addContracts "KEY" ["0xA1"; "0xC3"; "0xB2"] Sample.empty_world).2).
  reflexivity.
Defined.

Lemma split_batch_witness :
  ∃ w', addContracts "KEY" (["0xA1"] ++ ["0xC3"; "0xB2"]) Sample.empty_world
        = (Ok (["0xA1"] ++ [], [] ++ ["0xC3"; "0xB2"]), w') ∧
        Sample.event_rows (env w') = ["Transfer"; "Deposit"].
Proof.
  edestruct (addContracts_of_a_split_batch "KEY" ["0xA1"] ["0xC3"; "0xB2"]
               ["0xA1"] [] [] ["0xC3"; "0xB2"] Sample.empty_world
               (addContracts "KEY" ["0xA1"] Sample.empty_world).2
               (addContracts "KEY" ["0xC3"; "0xB2"]
                  (addContracts "KEY" ["0xA1"] Sample.empty_world).2).2)
    as (w' & Hrun & Henv); [reflexivity | reflexivity |].
  exists w'. split; [exact Hrun|]. rewrite Henv. reflexivity.
Defined.

End BatchesExamples.

(** ** The worker over any sequence of events *)

Lemma deliver_cons (ev : process_event) (evs : list process_event) (w : Worker) :
  deliver (ev :: evs) w = deliver evs (handle ev w).
Proof. reflexivity. Qed.

Lemma settled_stays (evs : list process_event) : ∀ w : Worker,
  settled w ≠ Pending → settled (deliver evs w) = settled w.
Proof.
  induction evs as [|ev evs IH]; intros w Hsettled; [reflexivity|].
  rewrite deliver_cons, IH.
  - destruct ev as [data|data|code]; simpl; try reflexivity.
    destruct (settled w); [contradiction|..]; case_decide; reflexivity.
  - destruct ev as [data|data|code]; simpl; try exact Hsettled.
    destruct (settled w); [contradiction|..]; case_decide; discriminate.
Qed.

(** X10.  Whatever the process emits and in whatever order, the promise of
    [runBackfillService] is pending as long as no [close] has come and is
    settled by the first [close]: resolved if its code is 0, rejected with
    its code otherwise.  Output and further [close] events after it change
    nothing. *)
Theorem promise_is_settled_by_the_first_close
    (contractIds : list Z) (evs : list process_event) :
  settled (deliver evs (spawn_worker contractIds)) =
  match first_close evs with
  | None => Pending
  | Some code =>
      if decide (code = Some 0%Z) then Resolved code else Rejected code
  end.
Proof.
  assert (Hany : ∀ w, settled w = Pending →
            settled (deliver evs w) =
            match first_close evs with
            | None => Pending
            | Some code =>
                if decide (code = Some 0%Z) then Resolved code else Rejected code
            end); [|apply Hany; reflexivity].
  induction evs as [|ev evs IH]; intros w Hpending; [exact Hpending|].
  rewrite deliver_cons. destruct ev as [data|data|code]; simpl.
  - apply IH. exact Hpending.
  - apply IH. exact Hpending.
  - rewrite settled_stays; simpl; rewrite Hpending; case_decide;
      simpl; first [reflexivity | discriminate].
Qed.

(** X11.  The console gets one line per chunk of output, in the order the
    chunks arrive, prefixed with the name of its stream; [close] writes
    nothing, and no event changes the command line of the worker. *)
Theorem console_follows_the_output (evs : list process_event) (w : Worker) :
  console (deliver evs w) = console w ++ omap console_line evs ∧
  command (deliver evs w) = command w ∧
  args (deliver evs w) = args w.
Proof.
  revert w. induction evs as [|ev evs IH]; intros w.
  - simpl. rewrite app_nil_r. repeat split.
  - rewrite deliver_cons. destruct (IH (handle ev w)) as (Hconsole & Hcommand & Hargs).
    rewrite Hconsole, Hcommand, Hargs.
    destruct ev as [data|data|code]; simpl; rewrite <- ?app_assoc; repeat split.
Qed.

(** ** [dev/gen.ts]: columns and foreign keys *)

Module GenFacts.
Import Gen.

Lemma TYPES_get_truthy (key : string) (v : js_value) :
  TYPES_get key = Some v → truthy v = true.
Proof.
  unfold TYPES_get.
  destruct (list_find _ TYPES) as [[i [k sql]]|] eqn:Hfind.
  - intros [= <-]. apply list_find_Some in Hfind as (Hlook & _).
    do 7 (destruct i as [|i]; [injection Hlook as _ <-; reflexivity|]).
    discriminate.
  - case_bool_decide; [intros [= <-]; reflexivity | discriminate].
Qed.

(** The column of a type, before the field sets its name. *)
Lemma column_of_type (t : GqlNode) :
  is_type t = true →
  ∃ c, parseFieldDefinition t = Ok c ∧
    name c = None ∧
    isNullable c = (if wraps_nonnull t then Some false else None) ∧
    isArray c = (if wraps_list t then Some true else None) ∧
    type c = match TYPES_get (base_name t) with
             | Some v => Some v
             | None => Some (Str "integer")
             end ∧
    comment c = match TYPES_get (base_name t) with
                | Some _ => None
                | None => Some (base_name t)
                end ∧
    isPrimary c = None ∧ isGenerated c = None ∧ generationStrategy c = None.
Proof.
  induction t as [n t IH|t IH|n|t IH|k]; simpl; intros Htype; try discriminate.
  - destruct (IH Htype) as (c & -> & Hname & Hnull & Harr & Hty & Hcom & Hrest).
    eexists. split; [reflexivity|]. simpl. repeat split; try tauto.
  - destruct (TYPES_get n) as [v|] eqn:Hget.
    + rewrite (TYPES_get_truthy _ _ Hget). eexists. split; [reflexivity|].
      simpl. repeat split.
    + eexists. split; [reflexivity|]. simpl. repeat split.
  - destruct (IH Htype) as (c & -> & Hname & Hnull & Harr & Hty & Hcom & Hrest).
    eexists. split; [reflexivity|]. simpl. repeat split; try tauto.
Qed.

(** X12.  The column of a field whose type is a named type under list and
    non-null wrappers: it has the name of the field; it is marked not
    nullable as soon as a non-null occurs at any depth of the type (also
    under a list), and is not marked otherwise; it is marked an array as
    soon as a list occurs; its type is what [TYPES] has for the named
    type, and for a name [TYPES] does not have it is ["integer"] with the
    name kept as the comment. *)
Theorem column_of_a_field (fname : string) (t : GqlNode) :
  is_type t = true →
  ∃ c, parseFieldDefinition (FieldDefinition fname t) = Ok c ∧
    name c = Some fname ∧
    isNullable c = (if wraps_nonnull t then Some false else None) ∧
    isArray c = (if wraps_list t then Some true else None) ∧
    type c = match TYPES_get (base_name t) with
             | Some v => Some v
             | None => Some (Str "integer")
             end ∧
    comment c = match TYPES_get (base_name t) with
                | Some _ => None
                | None => Some (base_name t)
                end.
Proof.
  intros Htype.
  destruct (column_of_type t Htype)
    as (c & Hparse & _ & Hnull & Harr & Hty & Hcom & _).
  simpl. rewrite Hparse. eexists. split; [reflexivity|]. simpl. tauto.
Qed.

(** X13.  [parseFieldDefinition] throws exactly when the innermost node,
    under any number of field, list and non-null wrappers, is of a kind it
    does not know, and then it throws ["Unsupported type"]; on a named type
    it returns, whatever the name. *)
Theorem parseFieldDefinition_throws_on_unsupported_kind (node : GqlNode) :
  (∃ k, innermost node = OtherKind k ∧
        parseFieldDefinition node = Throw (Error "Unsupported type")) ∨
  (∃ n c, innermost node = NamedType n ∧ parseFieldDefinition node = Ok c).
Proof.
  induction node as [n t IH|t IH|n|t IH|k]; simpl.
  - destruct IH as [(k & Hin & ->) | (m & c & Hin & ->)]; simpl; eauto.
  - destruct IH as [(k & Hin & ->) | (m & c & Hin & ->)]; simpl; eauto.
  - right. exists n. destruct (TYPES_get n) as [v|]; [destruct (truthy v)|]; eauto.
  - destruct IH as [(k & Hin & ->) | (m & c & Hin & ->)]; simpl; eauto.
  - left. eauto.
Qed.

Section TableFacts.
Context `{Lodash}.

Lemma columns_of_fields (fs : list (string * GqlNode)) :
  Forall (λ field, is_type field.2 = true) fs →
  ∀ acc : list TableColumnOptions,
  ∃ cols,
    for_of (λ columns field,
              columnOptions ← parseFieldDefinition
                                (FieldDefinition field.1 field.2);
              Ok (columns ++ [columnOptions]))
      acc fs = Ok (acc ++ cols) ∧
    name <$> cols = (λ field, Some field.1) <$> fs ∧
    foreign_key <$> filter has_comment cols
      = expected_key <$> filter (λ field, refers_elsewhere field.2 = true) fs.
Proof.
  induction 1 as [|[fname t] fs Htype _ IH]; intros acc.
  - exists []. simpl. rewrite app_nil_r. repeat split.
  - destruct (column_of_type t Htype)
      as (c & Hparse & _ & _ & _ & _ & Hcom & _).
    destruct (IH (acc ++ [assign_name fname c])) as (cols & Hrun & Hnames & Hkeys).
    assert (Hfield : parseFieldDefinition (FieldDefinition fname t)
                     = Ok (assign_name fname c))
      by (simpl; rewrite Hparse; reflexivity).
    exists (assign_name fname c :: cols). cbn [for_of fst snd].
    rewrite Hfield. cbn [mbind result_bind].
    rewrite Hrun, <- app_assoc. split; [reflexivity|].
    split; [simpl; f_equal; exact Hnames|].
    rewrite !filter_cons. cbn [fst snd].
    assert (Hcomment : has_comment (assign_name fname c)
                       ↔ refers_elsewhere t = true).
    { unfold has_comment, refers_elsewhere. simpl. rewrite Hcom.
      destruct (TYPES_get (base_name t)) as [v|].
      - split; [intros (s & Hno & _)|]; discriminate.
      - destruct (base_name t) as [|ch rest]; simpl.
        + split; [intros (s & [= <-] & Hne); contradiction | discriminate].
        + split; [reflexivity|]. intros _. eexists.
          split; [reflexivity | discriminate]. }
    destruct (decide (refers_elsewhere t = true)) as [Href|Href].
    + rewrite decide_True by (apply Hcomment; exact Href).
      rewrite !fmap_cons, Hkeys. f_equal.
      unfold foreign_key, expected_key. simpl. rewrite Hcom.
      unfold refers_elsewhere in Href.
      destruct (TYPES_get (base_name t)); [discriminate | reflexivity].
    + rewrite decide_False by (rewrite Hcomment; exact Href). exact Hkeys.
Qed.

(** X14.  For a type definition whose fields have types, the script makes
    a table named by [kebabCase] of the definition's name, with the column
    [id] first and then one column per field, in order and under the
    field's name, and with one foreign key per field whose named type is
    not a key of [TYPES] (and not the empty name), in order: it is called
    [fk-<field>-<kebab case of the type>-id] and points the field's column
    to the column [id] of the type's table. *)
Theorem table_of_a_definition (ast : TypeDefinition) :
  Forall (λ field, is_type field.2 = true) (fields ast) →
  ∃ t, table_of ast = Ok t ∧
    table_name t = kebabCase (def_name ast) ∧
    name <$> columns t = Some "id" :: ((λ field, Some field.1) <$> fields ast) ∧
    foreignKeys t
      = Some (expected_key
                <$> filter (λ field, refers_elsewhere field.2 = true) (fields ast)).
Proof.
  intros Htypes. unfold table_of.
  destruct (columns_of_fields (fields ast) Htypes [id_column])
    as (cols & -> & Hnames & Hkeys).
  eexists. split; [reflexivity|]. simpl.
  split; [reflexivity|]. split; [f_equal; exact Hnames|].
  rewrite filter_cons, decide_False
    by (intros (s & Hno & _); discriminate).
  rewrite Hkeys. reflexivity.
Qed.

End TableFacts.

(** [tags: [String!]]: a nullable list of non-null strings. *)
Lemma column_of_a_field_witness :
  ∃ c,
    parseFieldDefinition
      (FieldDefinition "tags" (ListType (NonNullType (NamedType "String"))))
      = Ok c ∧
    name c = Some "tags" ∧ isNullable c = Some false ∧ isArray c = Some true ∧
    type c = Some (Str "text") ∧ comment c = None.
Proof.
  apply (column_of_a_field "tags" (ListType (NonNullType (NamedType "String")))).
  reflexivity.
Defined.

(** The table of [Book]: [author] refers to [Person]; [toString], whose
    type is a member of [Object.prototype], does not refer anywhere. *)
Lemma table_of_a_definition_witness :
  ∃ t, table_of (H := sample_lodash) book = Ok t ∧
    table_name t = "book" ∧
    name <$> columns t
      = [Some "id"; Some "title"; Some "author"; Some "tags"; Some "toString"] ∧
    foreignKeys t
      = Some [ {| fk_name := "fk-author-person-id";
                  referencedTableName := "person";
                  referencedColumnNames := ["id"];
                  columnNames := [Some "author"] |} ].
Proof.
  apply (table_of_a_definition (H := sample_lodash) book).
  repeat constructor.
Defined.

End GenFacts.

(** ** [server.ts]: which services a start brings up *)

Module ServerFacts.
Import Server.

Lemma perform_made (fails : action → option exn) (block : list action) :
  ∀ a, a ∈ (perform fails block).1 → a ∈ block.
Proof.
  induction block as [|b rest IH]; intros a; simpl; [auto|].
  destruct (fails b) as [e|].
  - simpl. intros Hin. apply list_elem_of_singleton in Hin as ->. left.
  - destruct (perform fails rest) as [done thrown]. simpl in *.
    intros Hin. apply elem_of_cons in Hin as [-> | Hin]; [left|].
    right. apply IH. exact Hin.
Qed.

Lemma perform_clean (fails : action → option exn) (block : list action) :
  (∀ a, fails a = None) → perform fails block = (block, None).
Proof.
  intros Hclean. induction block as [|b rest IH]; simpl; [reflexivity|].
  rewrite Hclean, IH. reflexivity.
Qed.

(** Membership in a list that is written out. *)
Ltac in_cases :=
  repeat match goal with
         | Hin : _ ∈ _ ++ _ |- _ => apply elem_of_app in Hin as [Hin | Hin]
         | Hin : _ ∈ _ :: _ |- _ =>
             apply elem_of_cons in Hin as [Hin | Hin]; [try discriminate Hin|]
         | Hin : _ ∈ [] |- _ => inversion Hin
         end.

(** Membership of an element that is written out in the list. *)
Ltac listed :=
  repeat (first [apply list_elem_of_here | apply list_elem_of_further]).

(** Every call of a run is a call of one of the two blocks, or the report
    of an exception. *)
Lemma main_made (env : Env) (fails : action → option exn)
    (options connection : result unit) (a : action) :
  a ∈ main env fails options connection →
  a ∈ graphql_server env ∨ a ∈ connected env ∨ ∃ e, a = ConsoleLogError e.
Proof.
  unfold main. destruct options as [[]|e0]; [|intros Hin; inversion Hin].
  intros Hin. apply elem_of_app in Hin as [Hin | Hin].
  - left. exact (perform_made _ _ _ Hin).
  - destruct connection as [[]|e].
    + destruct (perform fails (connected env)) as [done thrown] eqn:Hrun.
      apply elem_of_app in Hin as [Hin | Hin].
      * right. left. apply (perform_made fails). rewrite Hrun. exact Hin.
      * destruct thrown as [e|]; [|inversion Hin].
        apply list_elem_of_singleton in Hin. eauto.
    + apply list_elem_of_singleton in Hin. eauto.
Qed.

(** X15.  However a start goes, the header watcher is subscribed only if
    it is enabled and the event watcher is not, and the event watcher only
    if it is enabled; so no run subscribes both. *)
Theorem watchers_exclude_each_other (env : Env) (fails : action → option exn)
    (options connection : result unit) :
  let run := main env fails options connection in
  (SubscriptionHeaderCids ∈ run →
   ENABLE_HEADER_WATCHER env = true ∧ ENABLE_EVENT_WATCHER env = false) ∧
  (SubscriptionReceiptCids ∈ run → ENABLE_EVENT_WATCHER env = true) ∧
  ¬ (SubscriptionHeaderCids ∈ run ∧ SubscriptionReceiptCids ∈ run).
Proof.
  intros run.
  assert (Hheader : SubscriptionHeaderCids ∈ run →
            ENABLE_HEADER_WATCHER env = true ∧ ENABLE_EVENT_WATCHER env = false).
  { intros Hin. apply main_made in Hin as [Hin | [Hin | [e Hin]]];
      [| |discriminate].
    - unfold graphql_server in Hin.
      destruct (GRAPHQL_SERVER_ENABLE env); in_cases.
    - unfold connected in Hin.
      destruct (ENABLE_HEADER_WATCHER env), (ENABLE_EVENT_WATCHER env),
        (HTTP_ENABLE env); simpl in Hin; in_cases; split; reflexivity. }
  assert (Hevent : SubscriptionReceiptCids ∈ run →
            ENABLE_EVENT_WATCHER env = true).
  { intros Hin. apply main_made in Hin as [Hin | [Hin | [e Hin]]];
      [| |discriminate].
    - unfold graphql_server in Hin.
      destruct (GRAPHQL_SERVER_ENABLE env); in_cases.
    - unfold connected in Hin.
      destruct (ENABLE_HEADER_WATCHER env), (ENABLE_EVENT_WATCHER env),
        (HTTP_ENABLE env); simpl in Hin; in_cases; reflexivity. }
  split; [exact Hheader|]. split; [exact Hevent|].
  intros [Hh He]. destruct (Hheader Hh) as [_ Hoff]. rewrite (Hevent He) in Hoff.
  discriminate.
Qed.


(** X17.  When the options are read, the connection opens and no call
    throws, the run creates the application, the store and the GraphQL
    service, subscribes the event watcher exactly when it is enabled, the
    header watcher exactly when it is enabled and the event watcher is
    not, starts the HTTP server exactly when it is enabled, on the port and
    address of the environment, and logs no exception. *)
Theorem clean_start_follows_the_environment (env : Env)
    (fails : action → option exn) :
  (∀ a, fails a = None) →
  let run := main env fails (Ok ()) (Ok ()) in
  NewApp ∈ run ∧ StoreInit ∈ run ∧ NewGraphqlService ∈ run ∧
  (SubscriptionReceiptCids ∈ run ↔ ENABLE_EVENT_WATCHER env = true) ∧
  (SubscriptionHeaderCids ∈ run ↔
   ENABLE_HEADER_WATCHER env = true ∧ ENABLE_EVENT_WATCHER env = false) ∧
  (∀ port addr, HttpListen port addr ∈ run ↔
     HTTP_ENABLE env = true ∧ port = HTTP_PORT env ∧ addr = HTTP_ADDR env) ∧
  (∀ x, ConsoleLogError x ∉ run).
Proof.
  intros Hclean run. unfold run, main. rewrite !perform_clean by exact Hclean.
  simpl. rewrite app_nil_r. unfold graphql_server, connected.
  destruct (GRAPHQL_SERVER_ENABLE env), (ENABLE_HEADER_WATCHER env),
    (ENABLE_EVENT_WATCHER env), (HTTP_ENABLE env); simpl.
  all: split; [listed|]; split; [listed|]; split; [listed|].
  all: split;
    [split; [intros Hin; in_cases; reflexivity
            | intros Hon; first [discriminate Hon | listed]]|].
  all: split;
    [split; [intros Hin; in_cases; split; reflexivity
            | intros [Hon Hoff]; first [discriminate | listed]]|].
  all: split; [|intros x Hin; in_cases].
  all: intros port addr; split;
    [intros Hin; in_cases; injection Hin as -> ->; repeat split
    | intros (Hon & -> & ->); first [discriminate Hon | listed]].
Qed.

Lemma clean_start_witness :
  let run := main everything_on nothing_fails (Ok ()) (Ok ()) in
  NewApp ∈ run ∧ StoreInit ∈ run ∧ NewGraphqlService ∈ run ∧
  (SubscriptionReceiptCids ∈ run ↔ ENABLE_EVENT_WATCHER everything_on = true) ∧
  (SubscriptionHeaderCids ∈ run ↔
   ENABLE_HEADER_WATCHER everything_on = true
   ∧ ENABLE_EVENT_WATCHER everything_on = false) ∧
  (∀ port addr, HttpListen port addr ∈ run ↔
     HTTP_ENABLE everything_on = true ∧ port = HTTP_PORT everything_on
     ∧ addr = HTTP_ADDR everything_on) ∧
  (∀ x, ConsoleLogError x ∉ run).
Proof.
  apply (clean_start_follows_the_environment everything_on nothing_fails).
  intros a. reflexivity.
Defined.

End ServerFacts.

(** ** Further runs *)

Section FurtherRuns.

(** The sample signature builder refuses the state variable [root]. *)
Example cyclic_root_is_refused :
  getStatesFromSourceCode (H := Sample.tools) Sample.cyclic_used
    = Throw (Error "CyclicStruct").
Proof. reflexivity. Qed.

(** A signature builder that looks through the struct definitions refuses
    a document for a struct that no state variable uses: whether such a
    struct is looked at is the builder's affair. *)
Example scanning_builder_refuses_unused_struct :
  getStatesFromSourceCode (H := Scan.tools) Scan.cyclic_beside
    = Throw (Error "CyclicStruct").
Proof. reflexivity. Qed.

(** The block number ["0"] of the wire is a non-empty string: it is
    returned as it is. *)
Example block_string_0_is_returned :
  (getStartingBlockFromEtherscan (H0 := Wire.collaborators) "KEY" "0xE5"
     Sample.empty_world).1
    = Ok (JString "0").
Proof. reflexivity. Qed.

(** The ABI text ["null"] is not empty and parses to [null]. *)
Example abi_text_null_gives_null :
  (getContractDataFromEtherscan (H0 := Wire.collaborators) "KEY" "0xE5"
     Sample.empty_world).1
    = Ok {| data_name := "Genesis"; data_abi := None;
            data_sourceCode := Sample.without_constant |}.
Proof. reflexivity. Qed.

(** The ids of a run are those the repository returned in it: the second
    [Transfer] finds the event the first created, so [1; 2] is not what
    the run returns. *)
Example ids_are_those_of_the_run :
  ¬ ∃ w', returned_in_turn (H := Sample.collaborators) ["Transfer"; "Transfer"]
            Sample.empty_world [1%Z; 2%Z] w'.
Proof.
  intros (w' & ev1 & w1 & Hfirst & _ & ev2 & w2 & Hsecond & Hid & _).
  injection Hfirst as <- <-. injection Hsecond as <- <-. discriminate Hid.
Qed.

End FurtherRuns.
